(** * agripandas: header inference, table materialisation and the registry

    A shallow embedding of [agripandas/loaders.py] ([_normalize_column_names],
    [load_excel], [load_csv], [load_file], [load_folder]),
    [agripandas/registry.py] ([DataFrameRegistry]) and [agripandas/export.py]
    ([export_to_csv]), with the properties the specification states about
    them.

    Conventions of the embedding.
    - A Python [str] is the [string] of its UTF-8 bytes, and [Py.chars] cuts
      it into its characters. [str.strip] is spelled out for every
      whitespace character of Unicode. [str.lower] is spelled out for the
      characters of Basic Latin and Latin-1; on a string with any other
      character it is a parameter of the development ([Unicode]).
    - A cell is what the loader can observe of a spreadsheet value: whether it
      is missing ([pd.notnull]), whether it is a [str], whether it is an
      [int]/[float], and the text [str(v)] prints for it.
    - A worksheet is read as pandas 1.5 and later read an [.xlsx] file
      (with openpyxl): the reader fetches the rows it needs, drops the empty
      cells a row ends with and the empty rows the fetched rows end with,
      and extends every row to the widest.
    - An exception is a value of [exn]; code that can raise returns a
      [result]. *)

From Stdlib Require Import Ascii String.
From stdpp Require Import gmap strings list pretty.

(** ** Lists without a run of elements at one end *)

(** [l] from its first element that does not satisfy [p]. *)
Fixpoint drop_start {A} (p : A → bool) (l : list A) : list A :=
  match l with
  | [] => []
  | x :: l' => if p x then drop_start p l' else l
  end.

(** [l] up to its last element that does not satisfy [p]. *)
Fixpoint drop_end {A} (p : A → bool) (l : list A) : list A :=
  match l with
  | [] => []
  | x :: l' =>
      match drop_end p l' with
      | [] => if p x then [] else [x]
      | r => x :: r
      end
  end.

(** ** Python strings *)

(** What [str.lower()] gives for a string that has a character outside
    Basic Latin and Latin-1. Python takes it from the Unicode character
    database; the development uses of it only that no character is
    lowercased to nothing. *)
Class Unicode := {
  lower_beyond : string → string;
  lower_beyond_nonempty s : s ≠ "" → lower_beyond s ≠ ""
}.

Module Py.

Definition byte (n : N) : ascii := ascii_of_N n.

(** The UTF-8 encoding of a code point. *)
Definition utf8 (cp : N) : string :=
  if (cp <? 128)%N then String (byte cp) ""
  else if (cp <? 2048)%N then
    String (byte (192 + cp / 64)) (String (byte (128 + cp mod 64)) "")
  else if (cp <? 65536)%N then
    String (byte (224 + cp / 4096))
      (String (byte (128 + (cp / 64) mod 64))
         (String (byte (128 + cp mod 64)) ""))
  else
    String (byte (240 + cp / 262144))
      (String (byte (128 + (cp / 4096) mod 64))
         (String (byte (128 + (cp / 64) mod 64))
            (String (byte (128 + cp mod 64)) ""))).

(** A byte [10xxxxxx], which continues the encoding of a character. *)
Definition continuation (c : ascii) : bool :=
  let n := N_of_ascii c in (128 <=? n)%N && (n <? 192)%N.

(** The string starts in the middle of a character. *)
Definition starts_inside (s : string) : bool :=
  match s with
  | EmptyString => false
  | String c _ => continuation c
  end.

(** The characters of a string, each as the bytes that encode it: a byte
    and the continuation bytes that follow it. *)
Fixpoint chars (s : string) : list string :=
  match s with
  | EmptyString => []
  | String c s' =>
      if starts_inside s'
      then match chars s' with
           | ch :: rest => String c ch :: rest
           | [] => [String c ""]
           end
      else String c "" :: chars s'
  end.

(** ["".join(parts)] *)
Definition cat (parts : list string) : string := foldr String.app "" parts.

(** The characters for which [str.isspace()] holds, which are those
    [str.strip()] removes: U+0009 to U+000D, U+001C to U+0020, U+0085,
    U+00A0, U+1680, U+2000 to U+200A, U+2028, U+2029, U+202F, U+205F and
    U+3000. *)
Definition whitespace : list string :=
  utf8 <$> [9; 10; 11; 12; 13; 28; 29; 30; 31; 32; 133; 160; 5760;
            8192; 8193; 8194; 8195; 8196; 8197; 8198; 8199; 8200; 8201; 8202;
            8232; 8233; 8239; 8287; 12288]%N.

Definition isspace (ch : string) : bool := bool_decide (ch ∈ whitespace).

(** [s.strip()] *)
Definition strip (s : string) : string :=
  cat (drop_end isspace (drop_start isspace (chars s))).

(** The lowercase of a code point below U+0100: the letters [A] to [Z],
    U+00C0 to U+00D6 and U+00D8 to U+00DE have one, 32 above them. *)
Definition lower_cp (cp : N) : N :=
  if ((65 <=? cp) && (cp <=? 90) || (192 <=? cp) && (cp <=? 214)
      || (216 <=? cp) && (cp <=? 222))%N
  then (cp + 32)%N else cp.

(** The code point of a character that UTF-8 encodes in one byte (U+0000
    to U+007F) or in two (U+0080 to U+07FF). *)
Definition codepoint (ch : string) : option N :=
  match ch with
  | String c EmptyString =>
      let n := N_of_ascii c in
      if (n <? 128)%N then Some n else None
  | String c (String d EmptyString) =>
      let n := N_of_ascii c in
      if ((194 <=? n) && (n <? 224))%N && continuation d
      then Some ((n - 192) * 64 + (N_of_ascii d - 128))%N
      else None
  | _ => None
  end.

(** The lowercase of a character of Basic Latin or Latin-1, [None] for any
    other character. *)
Definition lower_char (ch : string) : option string :=
  match codepoint ch with
  | Some cp => if (cp <? 256)%N then Some (utf8 (lower_cp cp)) else None
  | None => None
  end.

Section Lower.
Context {U : Unicode}.

(** [s.lower()] *)
Definition lower (s : string) : string :=
  match mapM lower_char (chars s) with
  | Some lowered => cat lowered
  | None => lower_beyond s
  end.

End Lower.

(** [s.replace(old, new)] for a one-character [old] of Basic Latin. *)
Fixpoint replace_char (old : ascii) (new : string) (s : string) : string :=
  match s with
  | EmptyString => EmptyString
  | String c s' =>
      if Ascii.eqb c old then new +:+ replace_char old new s'
      else String c (replace_char old new s')
  end.

(** [sep.join(parts)] *)
Fixpoint join (sep : string) (parts : list string) : string :=
  match parts with
  | [] => ""
  | [p] => p
  | p :: ps => p +:+ sep +:+ join sep ps
  end.

(** [str(n)] for a non-negative [int]. *)
Definition str_of_nat (n : nat) : string := pretty n.

End Py.

Arguments Py.strip : simpl never.
Arguments Py.lower : simpl never.
Arguments Py.isspace : simpl never.

(** ** Exceptions *)

Inductive exn : Set :=
| IndexError   (* positional indexer out of bounds *)
| ValueError   (* length mismatch when assigning column labels,
                  worksheet not found *)
| KeyError.    (* missing dictionary key *)

Inductive result (A : Type) : Type :=
| Ok (a : A)
| Raise (e : exn).
Arguments Ok {A} a.
Arguments Raise {A} e.

Definition bind {A B} (m : result A) (k : A -> result B) : result B :=
  match m with
  | Ok a => k a
  | Raise e => Raise e
  end.

Notation "'do' x <- m ; k" := (bind m (fun x => k))
  (at level 10, x name, m at level 100, k at level 200).

Definition is_ok {A} (m : result A) : bool :=
  match m with Ok _ => true | Raise _ => false end.

(** ** Cells, rows and frames *)

Inductive cell : Set :=
| Missing                  (* an empty cell, NaN once read:
                              [pd.notnull(v)] is false *)
| Text (s : string)        (* [isinstance(v, str)] *)
| Number (repr : string)   (* [isinstance(v, (int, float))], not NaN;
                              [repr] is [str(v)] *)
| Other (repr : string).   (* any other non-missing value, e.g. a datetime *)

Definition notnull (v : cell) : bool :=
  match v with Missing => false | _ => true end.

Definition is_str (v : cell) : bool :=
  match v with Text _ => true | _ => false end.

Definition is_num (v : cell) : bool :=
  match v with Number _ => true | _ => false end.

(** [str(v)]; a missing value prints as [nan]. *)
Definition str (v : cell) : string :=
  match v with
  | Missing => "nan"
  | Text s => s
  | Number r => r
  | Other r => r
  end.

Definition row := list cell.

(** [row.count()]: the number of non-missing cells. *)
Definition count (r : row) : nat := length (List.filter notnull r).

(** A worksheet as the file stores it: its rows in order, each with its
    cells from the first column on. [Missing] is a cell without a value (or
    with the empty string); a worksheet is taken to hold no other text that
    pandas reads as a missing value ([NA], [N/A], ...). *)
Definition sheet := list row.

(** A frame read with [header=None]: every row has [ncols] cells. *)
Record Grid := { ncols : nat; cells : list row }.

Definition max_width (rows : list row) : nat :=
  foldr (fun r w => Nat.max (length r) w) 0 rows.

Definition pad (w : nat) (r : row) : row := r ++ replicate (w - length r) Missing.

Definition is_empty (v : cell) : bool := negb (notnull v).

Definition no_cell (r : row) : bool :=
  match r with [] => true | _ => false end.

(** [get_sheet_data] of pandas' reader: the rows of the worksheet, up to
    [file_rows_needed] of them when it is given (the reader looks at the
    count after it has taken a row), each without the empty cells it ends
    with; then without the empty rows they end with, and each extended to
    the widest of them. *)
Definition get_sheet_data (sh : sheet) (file_rows_needed : option nat)
  : list row :=
  let fetched := match file_rows_needed with
                 | Some n => take (Nat.max 1 n) sh
                 | None => sh
                 end in
  let data := drop_end no_cell (drop_end is_empty <$> fetched) in
  pad (max_width data) <$> data.

(** [xls.parse(sheet_name, header=None, nrows=nrows)]: the reader is asked
    for [1 + nrows] rows, the parser returns the first [nrows] of what it
    is given; the frame is as wide as the rows fetched, and has neither row
    nor column when there are none. *)
Definition parse_peek (nrows : nat) (sh : sheet) : Grid :=
  let data := get_sheet_data sh (Some (1 + nrows)) in
  {| ncols := max_width data; cells := take nrows data |}.

(** [xls.parse(sheet_name, skiprows=k, header=None)]: the reader fetches
    every row and the parser skips the first [k]; when nothing is left the
    result is the empty frame, which has no columns. *)
Definition parse_skip (sh : sheet) (k : nat) : Grid :=
  let data := get_sheet_data sh None in
  match drop k data with
  | [] => {| ncols := 0; cells := [] |}
  | rows => {| ncols := max_width data; cells := rows |}
  end.

Arguments get_sheet_data : simpl never.
Arguments parse_peek : simpl never.
Arguments parse_skip : simpl never.

(** [df.iloc[i]] *)
Definition iloc (g : Grid) (i : nat) : result row :=
  match cells g !! i with
  | Some r => Ok r
  | None => Raise IndexError
  end.

(** [range(a, b)] *)
Definition range (a b : nat) : list nat := seq a (b - a).

(** [max(header_rows)] *)
Definition list_max (l : list nat) : nat := foldr Nat.max 0 l.

Record DataFrame := { columns : list string; rows : list row }.

Section Steps.
Context {U : Unicode}.

(** ** Step 1 of [load_excel]: where the header starts *)

(** [[str(v).lower() for v in row if pd.notnull(v)]] *)
Definition row_vals (r : row) : list string :=
  (fun v => Py.lower (str v)) <$> List.filter notnull r.

(** [any(anchor in row_vals for anchor in anchors)] *)
Definition has_anchor (anchors : list string) (r : row) : bool :=
  existsb (fun anchor => bool_decide (anchor ∈ row_vals r)) anchors.

(** [row.count() > df_peek.shape[1] * 0.5] *)
Definition dense (w : nat) (r : row) : bool := w <? 2 * count r.

(** The [for idx, row in df_peek.iterrows()] loop: [Some idx] when it leaves
    through one of its two [break]s at row [idx], [None] when it runs to the
    end. *)
Fixpoint scan (anchors : list string) (w : nat) (idx : nat) (rows : list row)
  : option nat :=
  match rows with
  | [] => None
  | r :: rest =>
      if has_anchor anchors r then Some idx
      else if dense w r then Some idx
      else scan anchors w (S idx) rest
  end.

(** [start_idx] after the loop; it keeps its initial value 0 when no [break]
    was taken. *)
Definition locate (anchors : list string) (df_peek : Grid) : nat :=
  default 0 (scan anchors (ncols df_peek) 0 (cells df_peek)).

(** ** Step 2: how many rows the header block has *)

(** [str_count > num_count and row.count() > 0] *)
Definition header_like (r : row) : bool :=
  let str_count := length (List.filter is_str r) in
  let num_count := length (List.filter is_num r) in
  (num_count <? str_count) && (0 <? count r).

(** The [for next_idx in range(...)] loop over the indices still to visit,
    [header_rows] being the list built so far. *)
Fixpoint extend (df_peek : Grid) (idxs : list nat) (header_rows : list nat)
  : result (list nat) :=
  match idxs with
  | [] => Ok header_rows
  | next_idx :: rest =>
      do r <- iloc df_peek next_idx;
      if header_like r then extend df_peek rest (header_rows ++ [next_idx])
      else Ok header_rows
  end.

Definition header_block (window : nat) (df_peek : Grid) (start_idx : nat)
  : result (list nat) :=
  extend df_peek (range (start_idx + 1) (Nat.min (start_idx + 3) window))
         [start_idx].

(** ** Step 3: one name per column from the header block *)

(** [ffill(axis=1)] on one row: a missing cell takes the nearest non-missing
    value to its left. *)
Fixpoint ffill_from (last : cell) (r : row) : row :=
  match r with
  | [] => []
  | v :: r' =>
      let v' := if notnull v then v else last in
      v' :: ffill_from v' r'
  end.

Definition ffill (r : row) : row := ffill_from Missing r.

(** [fillna("")] on one cell. *)
Definition fillna (v : cell) : cell := if notnull v then v else Text "".

(** [df_peek.iloc[header_rows].ffill(axis=1).fillna("")] *)
Definition header_df (df_peek : Grid) (header_rows : list nat)
  : result (list row) :=
  foldr (fun i acc => do r <- iloc df_peek i; do rs <- acc;
                      Ok ((fillna <$> ffill r) :: rs))
        (Ok []) header_rows.

(** One pass of the inner loop: [val] is appended to [parts] when it is not
    empty and its lowercase form is not that of a part already kept. *)
Definition add_part (parts : list string) (v : cell) : list string :=
  let val := Py.strip (str v) in
  if bool_decide (val ≠ "")
     && bool_decide (Py.lower val ∉ Py.lower <$> parts)
  then parts ++ [val] else parts.

(** [header_df.iloc[r, col]] for [r] running over the rows of the block. *)
Definition column_cells (hdf : list row) (col : nat) : list cell :=
  (fun r => nth col r (Text "")) <$> hdf.

Definition column_parts (hdf : list row) (col : nat) : list string :=
  foldl add_part [] (column_cells hdf col).

(** ["_".join(parts) if parts else f"unnamed_{col}"] *)
Definition column_name (hdf : list row) (col : nat) : string :=
  match column_parts hdf col with
  | [] => "unnamed_" +:+ Py.str_of_nat col
  | parts => Py.join "_" parts
  end.

Definition new_columns (w : nat) (hdf : list row) : list string :=
  column_name hdf <$> range 0 w.

(** ** Steps 4 and 5: the data frame below the header block *)

(** [df.columns = names]: pandas refuses labels whose number differs from the
    number of columns of the frame. *)
Definition set_columns (g : Grid) (names : list string) : result DataFrame :=
  if length names =? ncols g
  then Ok {| columns := names; rows := cells g |}
  else Raise ValueError.

(** [df.dropna(how="all")] *)
Definition dropna_rows (df : DataFrame) : DataFrame :=
  {| columns := columns df;
     rows := List.filter (existsb notnull) (rows df) |}.

Definition column_values (df : DataFrame) (j : nat) : list cell :=
  (fun r => nth j r Missing) <$> rows df.

(** The positions of the columns that [dropna(axis=1, how="all")] keeps. *)
Definition kept_columns (df : DataFrame) : list nat :=
  List.filter (fun j => existsb notnull (column_values df j))
              (range 0 (length (columns df))).

(** [df.dropna(axis=1, how="all")] *)
Definition dropna_cols (df : DataFrame) : DataFrame :=
  let keep := kept_columns df in
  {| columns := (fun j => nth j (columns df) "") <$> keep;
     rows := (fun r => (fun j => nth j r Missing) <$> keep) <$> rows df |}.

(** ** [_normalize_column_names] *)

(** [str(col).strip().lower().replace(" ", "_")] *)
Definition base_name (col : string) : string :=
  Py.replace_char " " "_" (Py.lower (Py.strip col)).

(** One pass of the loop body on the state [(new_columns, seen)]. *)
Definition normalize_step (st : list string * gmap string nat) (col : string)
  : list string * gmap string nat :=
  let base := base_name col in
  match st.2 !! base with
  | None => (st.1 ++ [base], <[base := 0]> st.2)
  | Some n =>
      (st.1 ++ [base +:+ "_" +:+ Py.str_of_nat (S n)], <[base := S n]> st.2)
  end.

Definition normalize_names (cols : list string) : list string :=
  (foldl normalize_step ([], ∅) cols).1.

Definition _normalize_column_names (df : DataFrame) : DataFrame :=
  {| columns := normalize_names (columns df); rows := rows df |}.

End Steps.

(** ** [DataFrameRegistry] *)

Inductive meta_value : Type :=
| MStr (s : string)
| MRows (header_rows : list nat).

Definition Metadata := list (string * meta_value).

Record DataFrameEntry := { dataframe : DataFrame; metadata : Metadata }.

(** A Python [dict] with [str] keys: the keys are pairwise distinct and kept
    in insertion order. *)
Module Dict.
Section Dict.
Context {V : Type}.

Definition t := list (string * V).

(** [d[k]] *)
Fixpoint get (d : t) (k : string) : result V :=
  match d with
  | [] => Raise KeyError
  | (k', v) :: d' => if bool_decide (k' = k) then Ok v else get d' k
  end.

(** [d[k] = v]: an existing key keeps its position. *)
Fixpoint set (d : t) (k : string) (v : V) : t :=
  match d with
  | [] => [(k, v)]
  | (k', v') :: d' =>
      if bool_decide (k' = k) then (k, v) :: d' else (k', v') :: set d' k v
  end.

(** [del d[k]] *)
Fixpoint del (d : t) (k : string) : result t :=
  match d with
  | [] => Raise KeyError
  | (k', v) :: d' =>
      if bool_decide (k' = k) then Ok d'
      else do r <- del d' k; Ok ((k', v) :: r)
  end.

(** [list(d.keys())] *)
Definition keys (d : t) : list string := fst <$> d.

(** [k in d] *)
Definition mem (d : t) (k : string) : bool := bool_decide (k ∈ keys d).
End Dict.
Arguments t V : clear implicits.
End Dict.

Module DataFrameRegistry.

Record t := { _tables : Dict.t DataFrameEntry }.

(** [__init__] *)
Definition init : t := {| _tables := [] |}.

(** [register]; [metadata or {}] turns [None] into the empty mapping. *)
Definition register (self : t) (name : string) (df : DataFrame)
           (md : option Metadata) : t :=
  {| _tables := Dict.set (_tables self) name
                  {| dataframe := df; metadata := default [] md |} |}.

Definition get (self : t) (name : string) : result DataFrame :=
  do e <- Dict.get (_tables self) name; Ok (dataframe e).

Definition get_metadata (self : t) (name : string) : result Metadata :=
  do e <- Dict.get (_tables self) name; Ok (metadata e).

Definition list (self : t) : list string := Dict.keys (_tables self).

(** [unregister]: the registry is unchanged when [del] raises. *)
Definition unregister (self : t) (name : string) : result t :=
  do d <- Dict.del (_tables self) name; Ok {| _tables := d |}.

Definition registered (self : t) (name : string) : Prop :=
  name ∈ Dict.keys (_tables self).

End DataFrameRegistry.

(** ** [load_excel] *)

(** An open workbook: [path] as given, [stem] is [Path(path).stem], and the
    worksheets in workbook order. *)
Record ExcelFile := {
  path : string;
  stem : string;
  worksheets : list (string * sheet)
}.

Definition sheet_names (xls : ExcelFile) : list string := fst <$> worksheets xls.

(** Looking a worksheet up by name; pandas raises [ValueError] for a name
    the workbook does not have. *)
Definition worksheet (xls : ExcelFile) (sheet_name : string) : result sheet :=
  match List.find (fun p => bool_decide (p.1 = sheet_name)) (worksheets xls) with
  | Some p => Ok p.2
  | None => Raise ValueError
  end.

Definition anchors : list string :=
  ["tratamento"; "parcela"; "ramo"; "bloco"; "nó"; "data"].

Section LoadExcel.
Context {U : Unicode}.

(** The frame the loop body builds for one worksheet, with the header rows it
    used. *)
Definition read_table (sh : sheet) : result (DataFrame * list nat) :=
  let df_peek := parse_peek 20 sh in
  let start_idx := locate anchors df_peek in
  do header_rows <- header_block 20 df_peek start_idx;
  do hdf <- header_df df_peek header_rows;
  let new_columns := new_columns (ncols df_peek) hdf in
  do df <- set_columns (parse_skip sh (list_max header_rows + 1)) new_columns;
  let df := dropna_cols (dropna_rows df) in
  Ok (_normalize_column_names df, header_rows).

(** [f"{file_path.stem}__{sheet_name.strip().lower()}"] *)
Definition table_name (xls : ExcelFile) (sheet_name : string) : string :=
  stem xls +:+ "__" +:+ Py.lower (Py.strip sheet_name).

(** The [for sheet_name in sheet_names] loop. State: the registry and the
    list [registered]. An exception leaves the loop and the function; what
    was registered before it stays in the registry. *)
Fixpoint load_sheets (xls : ExcelFile) (names : list string)
         (registry : DataFrameRegistry.t) (registered : list string)
  : DataFrameRegistry.t * result (list string) :=
  match names with
  | [] => (registry, Ok registered)
  | sheet_name :: rest =>
      match (do sh <- worksheet xls sheet_name; read_table sh) with
      | Raise e => (registry, Raise e)
      | Ok (df, header_rows) =>
          let name := table_name xls sheet_name in
          let registry :=
            DataFrameRegistry.register registry name df
              (Some [("file_path", MStr (path xls));
                     ("sheet", MStr sheet_name);
                     ("header_rows", MRows header_rows)]) in
          load_sheets xls rest registry (registered ++ [name])
      end
  end.

Definition load_excel (registry : DataFrameRegistry.t) (xls : ExcelFile)
           (sheet : option string)
  : DataFrameRegistry.t * result (list string) :=
  let names := match sheet with
               | Some s => [s]
               | None => sheet_names xls
               end in
  load_sheets xls names registry [].

End LoadExcel.

(** * The other loaders, the exporter and the registry tools *)

(** ** [load_csv], [load_file], [load_folder] *)

(** A file on disk as the loaders see it: the path, [Path(path).stem],
    [Path(path).suffix], and what [pd.ExcelFile(path)] and
    [pd.read_csv(path)] give for it, a value or the exception they raise. *)
Record File := {
  file_path : string;
  file_stem : string;
  file_suffix : string;
  excel_file : result (list (string * sheet));
  read_csv : result DataFrame
}.

Definition Loaded : Type := DataFrameRegistry.t * result (list string).

Section Loaders.
Context {U : Unicode}.

(** [load_excel(registry, path)] from the path: opening the workbook comes
    first. *)
Definition load_excel_at (registry : DataFrameRegistry.t) (f : File) : Loaded :=
  match excel_file f with
  | Raise e => (registry, Raise e)
  | Ok ws =>
      load_excel registry
        {| path := file_path f; stem := file_stem f; worksheets := ws |} None
  end.

Definition load_csv (registry : DataFrameRegistry.t) (f : File) : Loaded :=
  match read_csv f with
  | Raise e => (registry, Raise e)
  | Ok df =>
      let df := _normalize_column_names df in
      let table_name := Py.lower (Py.strip (file_stem f)) in
      (DataFrameRegistry.register registry table_name df
         (Some [("file_path", MStr (file_path f))]),
       Ok [table_name])
  end.

Definition load_file (registry : DataFrameRegistry.t) (f : File) : Loaded :=
  let suffix := Py.lower (file_suffix f) in
  if bool_decide (suffix = ".xlsx") then load_excel_at registry f
  else if bool_decide (suffix = ".csv") then load_csv registry f
  else (registry, Raise ValueError).

(** [for file in files: names.extend(load(registry, str(file)))] *)
Fixpoint load_each (load : DataFrameRegistry.t → File → Loaded)
         (files : list File) (registry : DataFrameRegistry.t)
         (names : list string) : Loaded :=
  match files with
  | [] => (registry, Ok names)
  | f :: rest =>
      match load registry f with
      | (registry, Raise e) => (registry, Raise e)
      | (registry, Ok loaded) => load_each load rest registry (names ++ loaded)
      end
  end.

(** [glob] is [Path(path).glob]: the files of the folder a pattern matches.
    An empty pattern is false in [if pattern:] and takes the default
    branch. *)
Definition load_folder (registry : DataFrameRegistry.t)
           (glob : string → list File) (pattern : option string) : Loaded :=
  let by_default :=
    match load_each load_excel_at (glob "*.xlsx") registry [] with
    | (registry, Raise e) => (registry, Raise e)
    | (registry, Ok names) => load_each load_csv (glob "*.csv") registry names
    end in
  match pattern with
  | Some p =>
      if bool_decide (p ≠ "") then load_each load_file (glob p) registry []
      else by_default
  | None => by_default
  end.

End Loaders.

(** ** [export_to_csv] *)

(** The files written, oldest first: the name given to
    [output_dir / filename] and the frame passed to [to_csv]. Creating the
    directory and the printed messages are not modelled. *)
Definition Written : Type := list (string * DataFrame).

(** The [for table in tables] loop; [registry.get] raises for a name that is
    not registered, so the frame it returns is never [None]. *)
Fixpoint export_each (registry : DataFrameRegistry.t) (tables : list string)
         (fs : Written) : Written * result unit :=
  match tables with
  | [] => (fs, Ok tt)
  | table :: rest =>
      match DataFrameRegistry.get registry table with
      | Raise e => (fs, Raise e)
      | Ok df => export_each registry rest (fs ++ [(table +:+ ".csv", df)])
      end
  end.

(** A [DataFrameRegistry] has neither a [list_tables] nor a [_frames]
    attribute, so without [tables] the function reports that it cannot list
    the registry and returns. *)
Definition export_to_csv (registry : DataFrameRegistry.t)
           (tables : option (list string)) (fs : Written)
  : Written * result unit :=
  match tables with
  | None => (fs, Ok tt)
  | Some tables => export_each registry tables fs
  end.

(** ** Registry tools *)

Definition list_dataframes (registry : DataFrameRegistry.t) : list string :=
  DataFrameRegistry.list registry.

(** [list(map(str, df.columns))] *)
Definition get_columns (registry : DataFrameRegistry.t) (name : string)
  : result (list string) :=
  do df <- DataFrameRegistry.get registry name; Ok (columns df).

(** * Statements and sample worksheets *)

(** The tables under which the sample worksheets of this development are
    evaluated. Their texts keep to Basic Latin and Latin-1, where
    lowercasing is spelled out, so [lower_beyond] is never consulted for
    them. *)
Definition sample_unicode : Unicode :=
  {| lower_beyond := id; lower_beyond_nonempty := λ s H, H |}.

(** ** Characters and trimming *)

Fixpoint all_continuation (s : string) : bool :=
  match s with
  | EmptyString => true
  | String c s' => Py.continuation c && all_continuation s'
  end.

(** One byte followed by continuation bytes only. *)
Definition char_like (ch : string) : Prop :=
  ∃ c k, ch = String c k ∧ all_continuation k = true.

(** A list of characters as [Py.chars] gives it: after the first, each
    starts with a byte that does not continue a character. *)
Definition chars_like (chs : list string) : Prop :=
  Forall char_like chs ∧
  Forall (λ ch, Py.starts_inside ch = false) (tail chs).

(** [t] is [s] without the whitespace at its two ends: the characters of [s]
    are a run of whitespace characters, then those of [t], then a run of
    whitespace characters, and [t] neither starts nor ends with a
    whitespace character. *)
Definition is_trim_of (s t : string) : Prop :=
  ∃ l m r,
    Py.chars s = l ++ m ++ r ∧ t = Py.cat m ∧
    Forall (λ ch, Py.isspace ch = true) l ∧
    Forall (λ ch, Py.isspace ch = true) r ∧
    (∀ ch, head m = Some ch → Py.isspace ch = false) ∧
    (∀ ch, last m = Some ch → Py.isspace ch = false).

(** What [replace(" ", "_")] does to one byte. *)
Definition underscore_for_space (c : ascii) : ascii :=
  if Ascii.eqb c " " then "_"%char else c.

(** ** Header rows *)

(** Rows [a .. b-1] of the window all pass the sub-header test. *)
Definition all_header_like (df_peek : Grid) (a b : nat) : Prop :=
  ∀ j, a ≤ j < b → ∃ r, cells df_peek !! j = Some r ∧ header_like r = true.



(** ** Frames *)

(** Every row of the frame has one cell per column name. *)
Definition rectangular (df : DataFrame) : Prop :=
  Forall (λ r, length r = length (columns df)) (rows df).

(** No row and no column of the frame is entirely missing. *)
Definition no_empty_row_or_column (df : DataFrame) : Prop :=
  Forall (λ r, existsb notnull r = true) (rows df) ∧
  ∀ j, j < length (columns df) →
       existsb notnull (column_values df j) = true.

(** A table as [load_excel] leaves it. *)
Definition clean (df : DataFrame) : Prop :=
  rectangular df ∧ no_empty_row_or_column df ∧ ∀ c, c ∈ columns df → c ≠ "".

(** The cells of [r] at the positions [keep]. *)
Definition project (keep : list nat) (r : row) : row :=
  (λ j, nth j r Missing) <$> keep.

(** ** Registries *)

(** The keys of the registry's dictionary are pairwise distinct. *)
Definition registry_wf (reg : DataFrameRegistry.t) : Prop :=
  NoDup (DataFrameRegistry.list reg).

(** The registries a program can build. *)
Inductive reachable : DataFrameRegistry.t → Prop :=
| reach_init : reachable DataFrameRegistry.init
| reach_register reg name df md :
    reachable reg → reachable (DataFrameRegistry.register reg name df md)
| reach_unregister reg reg' name :
    reachable reg → DataFrameRegistry.unregister reg name = Ok reg' →
    reachable reg'.

(** What a loader may do to a registry: names in use stay in use, the names
    stay pairwise distinct, and every name the loader returns can be
    fetched. *)
Definition loads_well (reg : DataFrameRegistry.t) (out : Loaded) : Prop :=
  (∀ n, DataFrameRegistry.registered reg n →
        DataFrameRegistry.registered out.1 n) ∧
  (registry_wf reg → registry_wf out.1) ∧
  ∀ names, out.2 = Ok names →
           ∀ n, n ∈ names → is_ok (DataFrameRegistry.get out.1 n) = true.

(** Every table of the registry satisfies [P]. *)
Definition all_tables (P : DataFrame → Prop) (reg : DataFrameRegistry.t) : Prop :=
  ∀ name df, DataFrameRegistry.get reg name = Ok df → P df.

(** The metadata [load_excel] records for a worksheet. *)
Definition sheet_metadata (xls : ExcelFile) (sheet_name : string)
           (header_rows : list nat) : Metadata :=
  [("file_path", MStr (path xls)); ("sheet", MStr sheet_name);
   ("header_rows", MRows header_rows)].

(** The file written for each table, in order. *)
Definition exported (reg : DataFrameRegistry.t) (tables : list string)
           (files : Written) : Prop :=
  Forall2 (λ t file, file.1 = t +:+ ".csv" ∧
                     DataFrameRegistry.get reg t = Ok file.2)
          tables files.

(** What a loader, started with the names [names] already collected, adds
    to the listing: the names listed before stay where they are, at the
    front, and when the loader returns, it returns the collected names
    followed by new ones, and every name listed after it was listed before
    or is among the names returned. *)
Definition grows (reg : DataFrameRegistry.t) (names : list string)
           (out : Loaded) : Prop :=
  list_dataframes reg `prefix_of` list_dataframes out.1 ∧
  ∀ res, out.2 = Ok res →
         names `prefix_of` res ∧
         ∀ n, n ∈ list_dataframes out.1 →
              n ∈ list_dataframes reg ∨ n ∈ res.

(** The name emitted for base name [b] seen [n] times before. *)
Definition suffixed (b : string) (n : nat) : string :=
  match n with
  | 0 => b
  | S _ => b +:+ "_" +:+ Py.str_of_nat n
  end.

(** The transform as the specification words it: trim, lowercase, and turn
    every run of whitespace into one underscore. *)
Module Spec.
Section Spec.
Context {U : Unicode}.



End Spec.
End Spec.

Section Statements.
Context {U : Unicode}.

(** A row at which the scanning loop stops. *)
Definition stops (anchors : list string) (w : nat) (r : row) : bool :=
  has_anchor anchors r || dense w r.

(** The property as the specification words it: whenever some row of the
    window matches an anchor, the first such row is the start index. *)
Definition anchor_has_priority (anchors : list string) (window : nat)
           (sh : sheet) : Prop :=
  let df_peek := parse_peek window sh in
  ∀ i r,
    cells df_peek !! i = Some r →
    has_anchor anchors r = true →
    (∀ j r', j < i → cells df_peek !! j = Some r' →
             has_anchor anchors r' = false) →
    locate anchors df_peek = i.

(** The state of one worksheet after steps 1 to 3: the header block was
    found and merged. *)
Definition header_found (sh : sheet) (header_rows : list nat)
           (hdf : list row) : Prop :=
  let df_peek := parse_peek 20 sh in
  header_block 20 df_peek (locate anchors df_peek) = Ok header_rows ∧
  header_df df_peek header_rows = Ok hdf.

(** The property as the specification words it: a worksheet whose frame
    cannot be materialised does not keep the other worksheets of the
    workbook from being loaded. *)
Definition failure_is_local (xls : ExcelFile) : Prop :=
  ∀ name sh,
    worksheet xls name = Ok sh →
    is_ok (read_table sh) = true →
    DataFrameRegistry.registered
      (load_excel DataFrameRegistry.init xls None).1 (table_name xls name).

(** How many of [cols] have base name [b]. *)
Definition occurrences (b : string) (cols : list string) : nat :=
  length (filter (λ c, base_name c = b) cols).

(** What [seen] holds once the columns [done_cols] have been processed. *)
Definition seen_after (done_cols : list string) (seen : gmap string nat) : Prop :=
  ∀ b, seen !! b = match occurrences b done_cols with
                   | 0 => None
                   | S n => Some n
                   end.

(** The names emitted for [cols] once [done_cols] have been processed. *)
Fixpoint canonical (done_cols cols : list string) : list string :=
  match cols with
  | [] => []
  | c :: cols' =>
      suffixed (base_name c) (occurrences (base_name c) done_cols)
      :: canonical (done_cols ++ [c]) cols'
  end.

(** The frame of step 4, before cleaning: the composite names over the rows
    below the header block. *)
Definition raw_frame (sh : sheet) (header_rows : list nat) (hdf : list row)
  : DataFrame :=
  {| columns := new_columns (ncols (parse_peek 20 sh)) hdf;
     rows := cells (parse_skip sh (list_max header_rows + 1)) |}.

(** The inner loop on the trimmed text of a cell. *)
Definition add_fragment (parts : list string) (val : string) : list string :=
  if bool_decide (val ≠ "")
     && bool_decide (Py.lower val ∉ Py.lower <$> parts)
  then parts ++ [val] else parts.

(** [parts] are the fragments kept from the values [vals]: in their order
    and casing, none empty, no two equal up to case, every non-empty value
    represented up to case, and each the first value of its lowercase
    form. *)
Record fragments_of (vals parts : list string) : Prop := {
  fragments_sublist : parts `sublist_of` vals;
  fragments_nonempty : ∀ p, p ∈ parts → p ≠ "";
  fragments_distinct : NoDup (Py.lower <$> parts);
  fragments_cover :
    ∀ v, v ∈ vals → v ≠ "" → Py.lower v ∈ Py.lower <$> parts;
  fragments_first :
    ∀ p, p ∈ parts →
         ∃ i, vals !! i = Some p ∧
              ∀ j u, j < i → vals !! j = Some u → Py.lower u ≠ Py.lower p
}.

(** The trimmed texts of the header cells of column [col], top to bottom. *)
Definition trimmed_values (hdf : list row) (col : nat) : list string :=
  (λ v, Py.strip (str v)) <$> column_cells hdf col.

End Statements.

(** ** Sample worksheets, frames and files *)

(** A title row with both cells filled above the real header. *)
Definition dense_title_sheet : sheet :=
  [ [Text "ensaio 2021"; Text "fazenda"];
    [Text "Parcela"; Text "Bloco"];
    [Number "1"; Number "2"] ].

(** A note above a header whose anchor is written in capitals, with an
    accent. *)
Definition accent_anchor_sheet : sheet :=
  [ [Text "obs"];
    [Text "NÓ"; Text "-"; Text "-"; Text "Folhas"];
    [Number "1"; Number "2"; Number "3"; Number "4"] ].

(** Eighteen sparse rows of notes, the header at row 18 and two rows of
    sub-headers below it. *)
Definition late_header_sheet : sheet :=
  replicate 18 [Text "nota"; Missing; Missing] ++
  [ [Text "Parcela"; Text "Bloco"; Text "Data"];
    [Text "id"; Text "norte"; Text "dia"];
    [Text "n"; Text "sul"; Text "mes"];
    [Number "1"; Number "2"; Number "3"] ].

(** A worksheet that holds a header row and nothing else. *)
Definition header_only_sheet : sheet := [ [Text "Parcela"; Text "Bloco"] ].

(** A worksheet that ends with a row of sub-headers. *)
Definition two_header_rows_sheet : sheet :=
  [ [Text "Parcela"; Text "Bloco"]; [Text "id"; Text "nome"] ].

(** A header row and one row of numbers. *)
Definition plain_sheet : sheet :=
  [ [Text "Parcela"; Text "Bloco"]; [Number "1"; Number "2"] ].

(** A header, a row of sub-headers and one row of data, all of them text:
    the three rows are taken for the header block and no row is left below
    it. *)
Definition text_only_sheet : sheet :=
  [ [Text "Parcela"; Text "Bloco"];
    [Text "id"; Text "nome"];
    [Text "a"; Text "b"] ].

Definition sample_workbook : ExcelFile :=
  {| path := "dados/ensaio.xlsx"; stem := "ensaio";
     worksheets := [("Resumo", plain_sheet); ("Campo", text_only_sheet);
                    ("Notas", plain_sheet)] |}.

(** A header whose third label is the name the second one is about to be
    given. *)
Definition repeated_plot_sheet : sheet :=
  [ [Text "plot"; Text "plot"; Text "plot_1"];
    [Number "1"; Number "2"; Number "3"] ].

(** An empty first column labelled like the second one, and an empty row
    between two rows of data. *)
Definition empty_column_sheet : sheet :=
  [ [Text "Plot"; Text "Plot"; Text "Yield"];
    [Missing; Number "1"; Number "20.5"];
    [Missing; Missing; Missing];
    [Missing; Number "2"; Number "18"] ].

(** A two-row header: no label over the first column, a label spanning the
    last two, and labels with a blank before or after them. *)
Definition spanning_header_sheet : sheet :=
  [ [Missing; Text "Parcela"; Text "Colheita"; Missing];
    [Missing; Text "parcela "; Text " Peso"; Text "Data"];
    [Number "7"; Number "1"; Number "20.5"; Text "2021-03-01"];
    [Number "8"; Number "2"; Number "18"; Text "2021-03-02"] ].

Definition sample_frame : DataFrame :=
  {| columns := ["plot"; "yield"]; rows := [[Number "1"; Number "20.5"]] |}.

Definition sample_registry : DataFrameRegistry.t :=
  DataFrameRegistry.register
    (DataFrameRegistry.register DataFrameRegistry.init "a" sample_frame None)
    "b" sample_frame (Some [("file_path", MStr "b.csv")]).

(** A text file next to two data files. *)
Definition notes_file : File :=
  {| file_path := "dados/notas.txt"; file_stem := "notas";
     file_suffix := ".txt";
     excel_file := Raise ValueError; read_csv := Raise ValueError |}.

Definition csv_file : File :=
  {| file_path := "dados/São Carlos .CSV"; file_stem := "São Carlos ";
     file_suffix := ".CSV";
     excel_file := Raise ValueError;
     read_csv := Ok {| columns := ["Nó"; "pH"; "NÓ"];
                       rows := [[Number "1"; Number "5.5"; Missing]] |} |}.

Definition xlsx_file : File :=
  {| file_path := "dados/ensaio.xlsx"; file_stem := "ensaio";
     file_suffix := ".xlsx";
     excel_file := Ok [("Resumo", plain_sheet)];
     read_csv := Raise ValueError |}.

(** What [Path.glob] gives in a folder holding the three files. *)
Definition sample_glob (pattern : string) : list File :=
  if bool_decide (pattern = "*") then [csv_file; notes_file; xlsx_file]
  else if bool_decide (pattern = "*.xlsx") then [xlsx_file]
  else [].

(** * Properties *)

(** ** Lists without a run of elements at one end *)

Section Trim.
Context {A : Type} (p : A → bool).

Lemma drop_start_spec (l : list A) :
  ∃ pre, l = pre ++ drop_start p l ∧ Forall (λ x, p x = true) pre ∧
         ∀ x, head (drop_start p l) = Some x → p x = false.
Proof.
  induction l as [|x l IH]; simpl.
  - exists []. split; [done|]. split; [constructor|done].
  - destruct (p x) eqn:Hx.
    + destruct IH as (pre & E & Hpre & Hhd). exists (x :: pre).
      split; [simpl; by rewrite <- E|]. split; [by constructor|done].
    + exists []. split; [done|]. split; [constructor|].
      simpl. intros y Hy. by injection Hy as <-.
Qed.

Lemma drop_end_spec (l : list A) :
  ∃ post, l = drop_end p l ++ post ∧ Forall (λ x, p x = true) post ∧
          ∀ x, last (drop_end p l) = Some x → p x = false.
Proof.
  induction l as [|x l IH]; simpl.
  - exists []. split; [done|]. split; [constructor|done].
  - destruct IH as (post & E & Hpost & Hlast).
    destruct (drop_end p l) as [|y r] eqn:Hd.
    + simpl in E. subst l. destruct (p x) eqn:Hx.
      * exists (x :: post). split; [done|]. split; [by constructor|done].
      * exists post. split; [done|]. split; [done|].
        simpl. intros z Hz. by injection Hz as <-.
    + exists post. split; [by rewrite E|]. split; [done|].
      intros z Hz. apply Hlast. by rewrite last_cons_cons in Hz.
Qed.

Lemma drop_end_head (l : list A) (x : A) :
  head l = Some x → p x = false → head (drop_end p l) = Some x.
Proof.
  destruct l as [|y l]; simpl; [done|]. intros Hy Hx. injection Hy as ->.
  destruct (drop_end p l); [by rewrite Hx|done].
Qed.

(** What is left once both ends are dropped. *)
Lemma drop_both_spec (l : list A) :
  ∃ pre post,
    l = pre ++ drop_end p (drop_start p l) ++ post ∧
    Forall (λ x, p x = true) pre ∧ Forall (λ x, p x = true) post ∧
    (∀ x, head (drop_end p (drop_start p l)) = Some x → p x = false) ∧
    (∀ x, last (drop_end p (drop_start p l)) = Some x → p x = false).
Proof.
  destruct (drop_start_spec l) as (pre & E & Hpre & Hhd).
  destruct (drop_end_spec (drop_start p l)) as (post & E' & Hpost & Hlast).
  exists pre, post. split; [by rewrite <- E'|]. split; [done|].
  split; [done|]. split; [|done].
  intros x Hx. apply Hhd.
  destruct (drop_start p l) as [|y m]; [done|]. simpl in *.
  destruct (drop_end p m).
  - destruct (p y); [done|]. done.
  - done.
Qed.

Lemma drop_start_app (l k : list A) :
  Forall (λ x, p x = true) l → drop_start p (l ++ k) = drop_start p k.
Proof. induction 1 as [|x l Hx _ IH]; [done|]. simpl. by rewrite Hx. Qed.

Lemma drop_start_keeps (k : list A) :
  (∀ x, head k = Some x → p x = false) → drop_start p k = k.
Proof. destruct k as [|x k]; [done|]. intros H. simpl. by rewrite (H x). Qed.

Lemma drop_end_all (r : list A) :
  Forall (λ x, p x = true) r → drop_end p r = [].
Proof. induction 1 as [|x r Hx _ IH]; [done|]. simpl. by rewrite IH, Hx. Qed.

Lemma drop_end_keeps (k : list A) :
  (∀ x, last k = Some x → p x = false) → drop_end p k = k.
Proof.
  induction k as [|x k IH]; [done|]. intros H. simpl.
  destruct k as [|y k].
  - simpl. by rewrite (H x).
  - rewrite IH; [done|]. intros z Hz. apply H. by rewrite last_cons_cons.
Qed.

Lemma drop_end_app (k r : list A) :
  Forall (λ x, p x = true) r →
  (∀ x, last k = Some x → p x = false) →
  drop_end p (k ++ r) = k.
Proof.
  intros Hr. induction k as [|x k IH]; intros Hk.
  - by apply drop_end_all.
  - simpl. destruct k as [|y k].
    + simpl. rewrite (drop_end_all r Hr). by rewrite (Hk x).
    + rewrite IH; [done|]. intros z Hz. apply Hk. by rewrite last_cons_cons.
Qed.
End Trim.

(** ** Characters of a string *)

Lemma string_app_cons (c : ascii) (s t : string) :
  String c s +:+ t = String c (s +:+ t).
Proof. reflexivity. Qed.

Lemma string_app_assoc (s t u : string) : (s +:+ t) +:+ u = s +:+ (t +:+ u).
Proof.
  induction s as [|c s IH]; [done|]. by rewrite !string_app_cons, IH.
Qed.

Lemma string_app_nil_r (s : string) : s +:+ "" = s.
Proof. induction s as [|c s IH]; [done|]. by rewrite string_app_cons, IH. Qed.

Lemma string_app_empty (s t : string) : s +:+ t = "" → s = "".
Proof. by destruct s. Qed.

Lemma cat_chars (s : string) : Py.cat (Py.chars s) = s.
Proof.
  induction s as [|c s IH]; [done|]. simpl.
  destruct (Py.starts_inside s).
  - destruct (Py.chars s) as [|ch rest]; simpl in *; by rewrite <- IH.
  - simpl. by rewrite IH.
Qed.

Lemma chars_char (c : ascii) (k t : string) :
  all_continuation k = true → Py.starts_inside t = false →
  Py.chars (String c k +:+ t) = String c k :: Py.chars t.
Proof.
  revert c. induction k as [|d k IH]; intros c Hk Ht.
  - change (String c "" +:+ t) with (String c t). cbn [Py.chars].
    by rewrite Ht.
  - simpl in Hk. apply andb_true_iff in Hk as [Hd Hk].
    change (String c (String d k) +:+ t) with (String c (String d k +:+ t)).
    cbn [Py.chars]. rewrite (IH d Hk Ht).
    change (Py.starts_inside (String d k +:+ t)) with (Py.continuation d).
    by rewrite Hd.
Qed.

Lemma chars_shape (s : string) :
  chars_like (Py.chars s) ∧
  ∀ ch, head (Py.chars s) = Some ch → Py.starts_inside ch = Py.starts_inside s.
Proof.
  induction s as [|c s [[Hall Htl] Hhd]].
  - split; [split; constructor|done].
  - cbn [Py.chars]. destruct (Py.starts_inside s) eqn:Hs.
    + destruct (Py.chars s) as [|ch rest].
      * split; [split; [|constructor]|].
        -- constructor; [|constructor]. by exists c, "".
        -- simpl. intros ch Hch. by injection Hch as <-.
      * apply Forall_cons in Hall as [(d & k & -> & Hk) Hall].
        specialize (Hhd _ eq_refl). simpl in Hhd, Htl.
        split; [split|].
        -- constructor; [|done]. exists c, (String d k). split; [done|].
           simpl. by rewrite Hhd, Hk.
        -- done.
        -- simpl. intros ch Hch. by injection Hch as <-.
    + split; [split|].
      * constructor; [by exists c, ""|done].
      * simpl. destruct (Py.chars s) as [|ch rest]; [constructor|].
        constructor; [|done]. by rewrite (Hhd _ eq_refl).
      * simpl. intros ch Hch. by injection Hch as <-.
Qed.

Lemma chars_like_segment (l m r : list string) :
  chars_like (l ++ m ++ r) → chars_like m.
Proof.
  intros [Hall Htl].
  apply Forall_app in Hall as [_ Hall]. apply Forall_app in Hall as [Hall _].
  split; [done|]. destruct m as [|ch m]; [constructor|]. simpl.
  destruct l as [|x l]; simpl in Htl.
  - by apply Forall_app in Htl as [Htl _].
  - apply Forall_app in Htl as [_ Htl]. apply Forall_cons in Htl as [_ Htl].
    by apply Forall_app in Htl as [Htl _].
Qed.

Lemma chars_cat_app (chs : list string) (t : string) :
  chars_like chs → Py.starts_inside t = false →
  Py.chars (Py.cat chs +:+ t) = chs ++ Py.chars t.
Proof.
  intros [Hall Htl] Ht. induction chs as [|ch chs IH]; [done|].
  apply Forall_cons in Hall as [(c & k & -> & Hk) Hall]. simpl in Htl.
  change (Py.cat (String c k :: chs)) with (String c k +:+ Py.cat chs).
  rewrite string_app_assoc, chars_char; [|done|].
  - rewrite IH; [done|done|]. destruct chs; [constructor|].
    by apply Forall_cons in Htl as [_ Htl].
  - destruct chs as [|ch' chs]; [done|].
    apply Forall_cons in Hall as [(c' & k' & -> & _) _].
    by apply Forall_cons in Htl as [Htl _].
Qed.

Lemma cat_nonempty (ch : string) (chs : list string) :
  char_like ch → Py.cat (ch :: chs) ≠ "".
Proof. by intros (c & k & -> & _). Qed.

(** ** Trimming *)

Lemma strip_is_trim (s : string) : is_trim_of s (Py.strip s).
Proof.
  destruct (drop_both_spec Py.isspace (Py.chars s))
    as (l & r & E & Hl & Hr & Hhd & Hlast).
  by exists l, (drop_end Py.isspace (drop_start Py.isspace (Py.chars s))), r.
Qed.

(** [is_trim_of] leaves one string only. *)
Lemma is_trim_strip (s t : string) : is_trim_of s t ↔ t = Py.strip s.
Proof.
  split; [|intros ->; apply strip_is_trim].
  intros (l & m & r & E & -> & Hl & Hr & Hhd & Hlast).
  unfold Py.strip. rewrite E, (drop_start_app _ _ _ Hl). f_equal.
  destruct m as [|ch m].
  - simpl. rewrite <- (app_nil_r r), (drop_start_app _ _ _ Hr). done.
  - rewrite drop_start_keeps by done. by rewrite drop_end_app.
Qed.

(** What [is_trim_of] fixes: the characters of the trimmed string. *)
Lemma trim_chars (s t u : string) :
  is_trim_of s t → Py.starts_inside u = false →
  ∃ m, t = Py.cat m ∧ Py.chars (t +:+ u) = m ++ Py.chars u ∧
       (∀ ch, head m = Some ch → Py.isspace ch = false) ∧
       Forall char_like m.
Proof.
  intros (l & m & r & E & -> & _ & _ & Hhd & _) Hu.
  assert (chars_like m) as Hm.
  { apply (chars_like_segment l m r). rewrite <- E. apply chars_shape. }
  exists m. split; [done|]. split; [by apply chars_cat_app|].
  split; [done|apply Hm].
Qed.

Lemma strip_nonempty (s ch : string) :
  ch ∈ Py.chars s → Py.isspace ch = false → Py.strip s ≠ "".
Proof.
  intros Hin Hch.
  destruct (strip_is_trim s) as (l & m & r & E & -> & Hl & Hr & _).
  pose proof (chars_shape s) as [Hshape _]. rewrite E in Hshape, Hin.
  apply chars_like_segment in Hshape as [Hall _].
  destruct m as [|ch0 m].
  - exfalso. rewrite Forall_forall in Hl, Hr.
    apply elem_of_app in Hin as [Hin|Hin]; [apply Hl in Hin|apply Hr in Hin];
      congruence.
  - apply cat_nonempty. by apply Forall_cons in Hall as [? _].
Qed.


(** ** Lowercasing and replacing *)

Lemma utf8_nonempty (cp : N) : Py.utf8 cp ≠ "".
Proof. unfold Py.utf8. by repeat case_match. Qed.

Lemma lower_char_nonempty (ch low : string) :
  Py.lower_char ch = Some low → low ≠ "".
Proof.
  unfold Py.lower_char. destruct (Py.codepoint ch) as [cp|]; [|done].
  destruct (cp <? 256)%N; [|done]. intros H. injection H as <-.
  apply utf8_nonempty.
Qed.

Section Lower.
Context {U : Unicode}.

Lemma lower_empty (s : string) : Py.lower s = "" → s = "".
Proof.
  unfold Py.lower. destruct (mapM Py.lower_char (Py.chars s)) as [l|] eqn:E.
  - apply mapM_Some_1 in E. intros Hcat.
    rewrite <- (cat_chars s). destruct E as [|ch low chs l Hch _]; [done|].
    apply lower_char_nonempty in Hch. simpl in Hcat.
    by apply string_app_empty in Hcat.
  - intros Hs. destruct (decide (s = "")) as [|Hne]; [done|].
    by apply lower_beyond_nonempty in Hne.
Qed.

Lemma lower_of_empty : Py.lower "" = "".
Proof. reflexivity. Qed.

End Lower.

Lemma replace_cons (c : ascii) (s : string) :
  Py.replace_char " " "_" (String c s) =
  String (underscore_for_space c) (Py.replace_char " " "_" s).
Proof. unfold underscore_for_space. simpl. by destruct (Ascii.eqb c " "). Qed.

Lemma replace_empty (s : string) : Py.replace_char " " "_" s = "" → s = "".
Proof. destruct s as [|c s]; [done|]. by rewrite replace_cons. Qed.



(** ** The reader *)

Lemma length_pad (w : nat) (r : row) : length (pad w r) = Nat.max w (length r).
Proof. unfold pad. rewrite length_app, length_replicate. lia. Qed.

Lemma max_width_ge (rows : list row) (r : row) :
  r ∈ rows → length r ≤ max_width rows.
Proof.
  induction rows as [|r0 rows IH]; [by intros ?%elem_of_nil|].
  intros [->|Hr]%elem_of_cons; simpl; [lia|]. specialize (IH Hr). lia.
Qed.

Lemma max_width_const (rows : list row) (w : nat) :
  rows ≠ [] → (∀ r, r ∈ rows → length r = w) → max_width rows = w.
Proof.
  induction rows as [|r0 rows IH]; [done|]. intros _ Hall. simpl.
  rewrite (Hall r0) by left. destruct rows as [|r1 rows]; [simpl; lia|].
  rewrite IH; [lia|done|]. intros r Hr. apply Hall. by right.
Qed.

(** The rows the reader returns are as wide as the widest of them. *)
Lemma get_sheet_data_width (sh : sheet) (n : option nat) :
  Forall (λ r, length r = max_width (get_sheet_data sh n))
         (get_sheet_data sh n).
Proof.
  unfold get_sheet_data.
  set (data := drop_end no_cell _).
  assert (∀ r, r ∈ pad (max_width data) <$> data →
               length r = max_width data) as Hlen.
  { intros r (r0 & -> & Hr0)%list_elem_of_fmap. rewrite length_pad.
    pose proof (max_width_ge _ _ Hr0). lia. }
  destruct data as [|r0 data'] eqn:Hd; [constructor|]. rewrite <- Hd in *.
  rewrite (max_width_const _ (max_width data)); [by apply Forall_forall| |done].
  rewrite Hd. done.
Qed.

Lemma parse_skip_rectangular (sh : sheet) (k : nat) :
  Forall (λ r, length r = ncols (parse_skip sh k)) (cells (parse_skip sh k)).
Proof.
  unfold parse_skip. pose proof (get_sheet_data_width sh None) as Hw.
  destruct (drop k (get_sheet_data sh None)) as [|r0 rs] eqn:Hd;
    simpl; [constructor|].
  rewrite <- Hd. rewrite Forall_forall in Hw |- *. intros r Hr.
  apply Hw. by eapply subseteq_drop.
Qed.


Lemma ncols_parse_skip (sh : sheet) (k : nat) :
  ncols (parse_skip sh k) =
  if decide (length (get_sheet_data sh None) ≤ k) then 0
  else max_width (get_sheet_data sh None).
Proof.
  unfold parse_skip.
  destruct (drop k (get_sheet_data sh None)) as [|r rs] eqn:Hd.
  - apply (f_equal length) in Hd. rewrite length_drop in Hd.
    simpl in Hd. rewrite decide_True by lia. done.
  - apply (f_equal length) in Hd. rewrite length_drop in Hd.
    simpl in Hd. rewrite decide_False by lia. done.
Qed.
(** ** The registry *)

Lemma filter_all {A} (P : A → Prop) `{∀ x, Decision (P x)} (l : list A) :
  Forall P l → filter P l = l.
Proof.
  induction 1 as [|x l Hx _ IH]; [done|].
  by rewrite filter_cons_True, IH.
Qed.

Section DictFacts.
Context {V : Type}.
Implicit Types (d : Dict.t V) (k : string) (v : V).

Lemma dict_get_missing d k : k ∉ Dict.keys d → Dict.get d k = Raise KeyError.
Proof.
  induction d as [|[k' v'] d IH]; intros Hk; [done|].
  simpl in *. apply not_elem_of_cons in Hk as [Hne Hk].
  rewrite bool_decide_eq_false_2 by done. by apply IH.
Qed.

Lemma dict_get_present d k :
  k ∈ Dict.keys d → ∃ v, Dict.get d k = Ok v ∧ (k, v) ∈ d.
Proof.
  induction d as [|[k' v'] d IH]; intros Hk; [by apply elem_of_nil in Hk|].
  simpl in *. destruct (decide (k' = k)) as [->|Hne].
  - rewrite bool_decide_eq_true_2 by done. exists v'. split; [done|left].
  - rewrite bool_decide_eq_false_2 by done.
    apply elem_of_cons in Hk as [->|Hk]; [done|].
    destruct (IH Hk) as (v & Hv & Hin). exists v. split; [done|by right].
Qed.

Lemma dict_del_missing d k : k ∉ Dict.keys d → Dict.del d k = Raise KeyError.
Proof.
  induction d as [|[k' v'] d IH]; intros Hk; [done|].
  simpl in *. apply not_elem_of_cons in Hk as [Hne Hk].
  rewrite bool_decide_eq_false_2 by done. by rewrite IH.
Qed.

Lemma dict_del_present d k :
  NoDup (Dict.keys d) → k ∈ Dict.keys d →
  ∃ d', Dict.del d k = Ok d' ∧
        Dict.keys d' = filter (λ k', k' ≠ k) (Dict.keys d) ∧
        (∀ k', k' ≠ k → Dict.get d' k' = Dict.get d k').
Proof.
  induction d as [|[k0 v0] d IH]; intros Hnd Hk;
    [by apply elem_of_nil in Hk|].
  simpl in *. apply NoDup_cons in Hnd as [Hnotin Hnd].
  destruct (decide (k0 = k)) as [->|Hne].
  - rewrite bool_decide_eq_true_2 by done. exists d. split; [done|]. split.
    + rewrite filter_cons_False by (intros H; by apply H).
      symmetry. apply filter_all, Forall_forall.
      intros k' Hk' ->. done.
    + intros k' Hk'. by rewrite bool_decide_eq_false_2.
  - rewrite bool_decide_eq_false_2 by done.
    apply elem_of_cons in Hk as [->|Hk]; [done|].
    destruct (IH Hnd Hk) as (d' & -> & Hkeys & Hget).
    exists ((k0, v0) :: d'). split; [done|]. split.
    + simpl. rewrite filter_cons_True by done. by rewrite Hkeys.
    + intros k' Hk'. simpl. by rewrite Hget.
Qed.

Lemma dict_set_keys d k v :
  Dict.keys (Dict.set d k v) =
  if decide (k ∈ Dict.keys d) then Dict.keys d else Dict.keys d ++ [k].
Proof.
  unfold Dict.keys. induction d as [|[k0 v0] d IH].
  - destruct (decide (k ∈ fst <$> [])) as [H|]; [|done].
    by apply elem_of_nil in H.
  - cbn [Dict.set]. destruct (decide (k0 = k)) as [->|Hne].
    + rewrite bool_decide_eq_true_2 by done.
      rewrite !fmap_cons. cbn [fst].
      destruct (decide (k ∈ k :: (fst <$> d))) as [|H]; [done|].
      exfalso. apply H. left.
    + rewrite bool_decide_eq_false_2 by done.
      rewrite !fmap_cons, IH. cbn [fst].
      destruct (decide (k ∈ fst <$> d)) as [Hin|Hnin];
        destruct (decide (k ∈ k0 :: (fst <$> d))) as [Hin'|Hnin'];
        try done.
      * exfalso. apply Hnin'. by right.
      * apply elem_of_cons in Hin' as [->|?]; done.
Qed.

Lemma dict_get_set d k v : Dict.get (Dict.set d k v) k = Ok v.
Proof.
  induction d as [|[k0 v0] d IH]; simpl.
  - by rewrite bool_decide_eq_true_2.
  - destruct (decide (k0 = k)) as [->|Hne].
    + rewrite bool_decide_eq_true_2 by done. simpl.
      by rewrite bool_decide_eq_true_2.
    + rewrite bool_decide_eq_false_2 by done. simpl.
      by rewrite bool_decide_eq_false_2.
Qed.
End DictFacts.

Module RegistryFacts.
Import DataFrameRegistry.

Lemma wf_init : registry_wf init.
Proof. apply NoDup_nil_2. Qed.

Lemma wf_register reg name df md : registry_wf reg → registry_wf (register reg name df md).
Proof.
  unfold registry_wf, list, register. simpl. intros Hnd. rewrite dict_set_keys.
  case_decide as Hin; [done|].
  apply NoDup_app. split; [done|]. split; [|apply NoDup_singleton].
  intros k Hk ->%list_elem_of_singleton. done.
Qed.

Lemma get_register reg name df md :
  get (register reg name df md) name = Ok df ∧
  get_metadata (register reg name df md) name = Ok (default [] md).
Proof. unfold get, get_metadata, register. simpl. by rewrite dict_get_set. Qed.

Lemma wf_unregister reg reg' name :
  registry_wf reg → unregister reg name = Ok reg' → registry_wf reg'.
Proof.
  unfold registry_wf, list, unregister. intros Hnd.
  destruct (decide (name ∈ Dict.keys (_tables reg))) as [Hin|Hnin].
  - destruct (dict_del_present _ _ Hnd Hin) as (d' & -> & Hkeys & _).
    simpl. intros H. injection H as <-. simpl. rewrite Hkeys.
    by apply NoDup_filter.
  - by rewrite dict_del_missing.
Qed.
End RegistryFacts.

(** C9: [get], [get_metadata] and [unregister] raise [KeyError] exactly when
    the name is not registered; when it is, [get] returns the data frame
    stored under it, [get_metadata] its metadata, and [unregister] removes
    that entry and leaves the others as they are. *)
Theorem registry_fails_exactly_when_absent
        (reg : DataFrameRegistry.t) (name : string) :
  registry_wf reg →
  (DataFrameRegistry.get reg name = Raise KeyError
     ↔ ¬ DataFrameRegistry.registered reg name) ∧
  (DataFrameRegistry.get_metadata reg name = Raise KeyError
     ↔ ¬ DataFrameRegistry.registered reg name) ∧
  (DataFrameRegistry.unregister reg name = Raise KeyError
     ↔ ¬ DataFrameRegistry.registered reg name) ∧
  (DataFrameRegistry.registered reg name →
   ∃ e reg',
     (name, e) ∈ DataFrameRegistry._tables reg ∧
     DataFrameRegistry.get reg name = Ok (dataframe e) ∧
     DataFrameRegistry.get_metadata reg name = Ok (metadata e) ∧
     DataFrameRegistry.unregister reg name = Ok reg' ∧
     ¬ DataFrameRegistry.registered reg' name ∧
     DataFrameRegistry.list reg' =
       filter (λ n, n ≠ name) (DataFrameRegistry.list reg) ∧
     ∀ other, other ≠ name →
              DataFrameRegistry.get reg' other = DataFrameRegistry.get reg other ∧
              DataFrameRegistry.get_metadata reg' other =
                DataFrameRegistry.get_metadata reg other).
Proof.
  intros Hwf.
  unfold DataFrameRegistry.get, DataFrameRegistry.get_metadata,
    DataFrameRegistry.unregister, DataFrameRegistry.registered,
    DataFrameRegistry.list.
  destruct (decide (name ∈ Dict.keys (DataFrameRegistry._tables reg)))
    as [Hin|Hnin].
  - destruct (dict_get_present _ _ Hin) as (e & Hget & He).
    destruct (dict_del_present _ _ Hwf Hin) as (d' & Hdel & Hkeys & Hother).
    rewrite Hget, Hdel. simpl.
    split; [split; [done|tauto]|]. split; [split; [done|tauto]|].
    split; [split; [done|tauto]|]. intros _.
    exists e, {| DataFrameRegistry._tables := d' |}. simpl.
    split; [done|]. split; [done|]. split; [done|]. split; [done|]. split.
    + rewrite Hkeys, list_elem_of_filter. tauto.
    + split; [done|]. intros other Hne. by rewrite (Hother other Hne).
  - rewrite dict_get_missing, dict_del_missing by done. simpl.
    repeat split; try done.
Qed.

(** ** The registry as a dictionary *)

Section DictMoreFacts.
Context {V : Type}.
Implicit Types (d : Dict.t V) (k : string) (v : V).

Lemma dict_get_set_ne d k k' v :
  k ≠ k' → Dict.get (Dict.set d k v) k' = Dict.get d k'.
Proof.
  intros Hne. induction d as [|[k0 v0] d IH]; simpl.
  - by rewrite bool_decide_eq_false_2.
  - destruct (decide (k0 = k)) as [->|Hne0].
    + rewrite bool_decide_eq_true_2 by done. simpl.
      by rewrite !bool_decide_eq_false_2.
    + rewrite bool_decide_eq_false_2 by done. simpl. by rewrite IH.
Qed.

Lemma dict_set_set d k v v' :
  Dict.set (Dict.set d k v) k v' = Dict.set d k v'.
Proof.
  induction d as [|[k0 v0] d IH]; simpl.
  - by rewrite bool_decide_eq_true_2.
  - destruct (decide (k0 = k)) as [->|Hne0].
    + rewrite bool_decide_eq_true_2 by done. simpl.
      by rewrite bool_decide_eq_true_2.
    + rewrite bool_decide_eq_false_2 by done. simpl.
      by rewrite bool_decide_eq_false_2, IH.
Qed.

Lemma dict_del_set_fresh d k v :
  k ∉ Dict.keys d → Dict.del (Dict.set d k v) k = Ok d.
Proof.
  induction d as [|[k0 v0] d IH]; simpl; intros Hk.
  - by rewrite bool_decide_eq_true_2.
  - apply not_elem_of_cons in Hk as [Hne Hk].
    rewrite bool_decide_eq_false_2 by done. simpl.
    rewrite bool_decide_eq_false_2 by done. by rewrite (IH Hk).
Qed.
End DictMoreFacts.

Lemma get_after_register
        (reg : DataFrameRegistry.t) (name : string) (df : DataFrame)
        (md : option Metadata) :
  let reg' := DataFrameRegistry.register reg name df md in
  DataFrameRegistry.get reg' name = Ok df ∧
  DataFrameRegistry.get_metadata reg' name = Ok (default [] md) ∧
  ∀ other, other ≠ name →
           DataFrameRegistry.get reg' other = DataFrameRegistry.get reg other ∧
           DataFrameRegistry.get_metadata reg' other =
             DataFrameRegistry.get_metadata reg other.
Proof.
  intros reg'. unfold reg', DataFrameRegistry.get,
    DataFrameRegistry.get_metadata, DataFrameRegistry.register. simpl.
  rewrite dict_get_set. split; [done|]. split; [done|].
  intros other Hne. by rewrite dict_get_set_ne.
Qed.

(** X1: after [register], [get] returns the frame just stored and
    [get_metadata] its metadata ([None] being stored as the empty mapping),
    whatever was under that name before; every other name reads as
    before. *)
Theorem register_then_get
        (reg : DataFrameRegistry.t) (name : string) (df : DataFrame)
        (md : option Metadata) :
  let reg' := DataFrameRegistry.register reg name df md in
  DataFrameRegistry.get reg' name = Ok df ∧
  DataFrameRegistry.get_metadata reg' name = Ok (default [] md) ∧
  ∀ other, other ≠ name →
           DataFrameRegistry.get reg' other = DataFrameRegistry.get reg other ∧
           DataFrameRegistry.get_metadata reg' other =
             DataFrameRegistry.get_metadata reg other.
Proof. intros. by eapply get_after_register. Qed.

Lemma register_in_place
        (reg : DataFrameRegistry.t) (name : string) (df df' : DataFrame)
        (md md' : option Metadata) :
  DataFrameRegistry.list (DataFrameRegistry.register reg name df md) =
    (if decide (name ∈ DataFrameRegistry.list reg)
     then DataFrameRegistry.list reg
     else DataFrameRegistry.list reg ++ [name]) ∧
  DataFrameRegistry.register
    (DataFrameRegistry.register reg name df md) name df' md' =
  DataFrameRegistry.register reg name df' md'.
Proof.
  unfold DataFrameRegistry.list, DataFrameRegistry.registered,
    DataFrameRegistry.register. simpl. split.
  - apply dict_set_keys.
  - by rewrite dict_set_set.
Qed.

(** X2: registering under a name already in use keeps the name where it is in
    [list] and replaces the entry, so that registering twice under one name
    leaves the registry the second registration alone would give; a new
    name goes to the end of [list]. *)
Theorem register_overwrites_in_place
        (reg : DataFrameRegistry.t) (name : string) (df df' : DataFrame)
        (md md' : option Metadata) :
  DataFrameRegistry.list (DataFrameRegistry.register reg name df md) =
    (if decide (name ∈ DataFrameRegistry.list reg)
     then DataFrameRegistry.list reg
     else DataFrameRegistry.list reg ++ [name]) ∧
  DataFrameRegistry.register
    (DataFrameRegistry.register reg name df md) name df' md' =
  DataFrameRegistry.register reg name df' md'.
Proof. intros. by eapply register_in_place. Qed.

(** X3: registering a table under a name that is not in use and then
    unregistering that name gives the registry back as it was. *)
Theorem register_unregister_roundtrip
        (reg : DataFrameRegistry.t) (name : string) (df : DataFrame)
        (md : option Metadata) :
  ¬ DataFrameRegistry.registered reg name →
  DataFrameRegistry.unregister
    (DataFrameRegistry.register reg name df md) name = Ok reg.
Proof.
  intros Hfresh. unfold DataFrameRegistry.unregister,
    DataFrameRegistry.register. simpl.
  rewrite dict_del_set_fresh by done. simpl. by destruct reg.
Qed.

(** X4: in every registry built from the empty one by [register] and
    successful [unregister] calls, [list] names no table twice, and the
    names it lists are exactly those [get] succeeds on. *)
Theorem reachable_registry_names_unique (reg : DataFrameRegistry.t) :
  reachable reg →
  NoDup (DataFrameRegistry.list reg) ∧
  ∀ name, name ∈ DataFrameRegistry.list reg ↔
          is_ok (DataFrameRegistry.get reg name) = true.
Proof.
  intros Hreach. split.
  - induction Hreach as [|reg name df md _ IH|reg reg' name _ IH Hun].
    + apply RegistryFacts.wf_init.
    + by apply RegistryFacts.wf_register.
    + by eapply RegistryFacts.wf_unregister.
  - intros name. unfold DataFrameRegistry.list, DataFrameRegistry.get.
    destruct (decide (name ∈ Dict.keys (DataFrameRegistry._tables reg)))
      as [Hin|Hnin].
    + destruct (dict_get_present _ _ Hin) as (e & -> & _). done.
    + rewrite dict_get_missing by done. simpl. split; [done|discriminate].
Qed.

(** * Properties of the loaders *)

Section Properties.
Context {U : Unicode}.

(** ** Header location *)

Section Locate.
Variable keywords : list string.
Variable w : nat.

Lemma scan_first (rows : list row) (k i : nat) (r : row) :
  rows !! i = Some r →
  stops keywords w r = true →
  (∀ j r', j < i → rows !! j = Some r' → stops keywords w r' = false) →
  scan keywords w k rows = Some (k + i).
Proof.
  revert k i. induction rows as [|r0 rows IH]; intros k i Hi Hr Hbefore.
  - by rewrite lookup_nil in Hi.
  - destruct i as [|i]; simpl in *.
    + injection Hi as ->. unfold stops in Hr.
      destruct (has_anchor keywords r); [f_equal; lia|].
      simpl in Hr. rewrite Hr. f_equal; lia.
    + assert (stops keywords w r0 = false) as H0 by (apply (Hbefore 0); [lia|done]).
      unfold stops in H0. apply orb_false_iff in H0 as [-> ->].
      rewrite (IH (S k) i); [f_equal; lia|done..|].
      intros j r' Hj Hr'. apply (Hbefore (S j)); [lia|done].
Qed.

Lemma scan_none (rows : list row) (k : nat) :
  (∀ r, r ∈ rows → stops keywords w r = false) →
  scan keywords w k rows = None.
Proof.
  revert k. induction rows as [|r0 rows IH]; intros k Hall; [done|].
  simpl. assert (stops keywords w r0 = false) as H0 by (apply Hall; left).
  unfold stops in H0. apply orb_false_iff in H0 as [-> ->].
  apply IH. intros r Hr. apply Hall. by right.
Qed.
End Locate.

(** C1, amended: the start index is the first row of the window that matches
    an anchor or has more than half of its cells filled; so the first
    anchor-matching row is returned when no earlier row of the window is
    that dense, and an earlier dense row is returned in its place. *)
Theorem locate_first_anchor_or_dense
        (anchors : list string) (df_peek : Grid) (i : nat) (r : row) :
  cells df_peek !! i = Some r →
  has_anchor anchors r || dense (ncols df_peek) r = true →
  (∀ j r', j < i → cells df_peek !! j = Some r' →
           has_anchor anchors r' = false ∧ dense (ncols df_peek) r' = false) →
  locate anchors df_peek = i.
Proof.
  intros Hi Hr Hbefore. unfold locate.
  rewrite (scan_first anchors (ncols df_peek) (cells df_peek) 0 i r);
    [done|done|done|].
  intros j r' Hj Hr'. unfold stops.
  destruct (Hbefore j r' Hj Hr') as [-> ->]. done.
Qed.

Lemma locate_default (anchors : list string) (df_peek : Grid) :
  (∀ r, r ∈ cells df_peek →
        has_anchor anchors r = false ∧ dense (ncols df_peek) r = false) →
  locate anchors df_peek = 0.
Proof.
  intros Hall. unfold locate. rewrite scan_none; [done|].
  intros r Hr. unfold stops. by destruct (Hall r Hr) as [-> ->].
Qed.

(** ** Where the header search can end *)

Lemma scan_some (keywords : list string) (w k m : nat) (rows : list row) :
  scan keywords w k rows = Some m →
  ∃ i r, m = k + i ∧ rows !! i = Some r ∧ stops keywords w r = true ∧
         ∀ j r', j < i → rows !! j = Some r' → stops keywords w r' = false.
Proof.
  revert k. induction rows as [|r0 rows IH]; intros k; simpl; [done|].
  destruct (stops keywords w r0) eqn:Hs0.
  - intros Hm. exists 0, r0.
    assert (m = k) as ->.
    { unfold stops in Hs0. destruct (has_anchor keywords r0); simpl in *;
        [by injection Hm|]. rewrite Hs0 in Hm. by injection Hm. }
    split; [lia|]. split; [done|]. split; [done|]. intros j r' Hj. lia.
  - unfold stops in Hs0. apply orb_false_iff in Hs0 as [Ha Hd].
    rewrite Ha, Hd. intros Hm.
    destruct (IH _ Hm) as (i & r & -> & Hi & Hr & Hbefore).
    exists (S i), r. split; [lia|]. split; [done|]. split; [done|].
    intros [|j] r' Hj Hr'; simpl in Hr'.
    + injection Hr' as <-. unfold stops. by rewrite Ha, Hd.
    + apply (Hbefore j); [lia|done].
Qed.

Lemma scan_none_inv (keywords : list string) (w k : nat) (rows : list row) :
  scan keywords w k rows = None →
  ∀ r, r ∈ rows → stops keywords w r = false.
Proof.
  revert k. induction rows as [|r0 rows IH]; intros k; simpl.
  - intros _ r Hr. by apply elem_of_nil in Hr.
  - destruct (has_anchor keywords r0) eqn:Ha; [done|].
    destruct (dense w r0) eqn:Hd; [done|].
    intros Hn r [->|Hr]%elem_of_cons; [|by eapply IH].
    unfold stops. by rewrite Ha, Hd.
Qed.

Lemma locate_cases (keywords : list string) (df_peek : Grid) :
  let start_idx := locate keywords df_peek in
  let w := ncols df_peek in
  ((∃ r, cells df_peek !! start_idx = Some r ∧ stops keywords w r = true ∧
         ∀ j r', j < start_idx → cells df_peek !! j = Some r' →
                 stops keywords w r' = false)
   ∨ (start_idx = 0 ∧ ∀ r, r ∈ cells df_peek → stops keywords w r = false)) ∧
  start_idx < Nat.max 1 (length (cells df_peek)).
Proof.
  intros start_idx w. unfold start_idx, locate. fold w.
  destruct (scan keywords w 0 (cells df_peek)) as [m|] eqn:Hscan; simpl.
  - destruct (scan_some _ _ _ _ _ Hscan) as (i & r & -> & Hi & Hr & Hbefore).
    simpl. split; [left; eauto|].
    apply lookup_lt_Some in Hi. lia.
  - split; [right; split; [done|by eapply scan_none_inv]|lia].
Qed.

(** X5: the start index is a row of the window: either it is the first row
    that matches an anchor or is more than half filled, or no row of the
    window is such a row and the index is 0; it never points past the rows
    read (for a window without rows it is 0). *)
Theorem locate_is_first_stop_or_zero (keywords : list string) (df_peek : Grid) :
  let start_idx := locate keywords df_peek in
  let w := ncols df_peek in
  ((∃ r, cells df_peek !! start_idx = Some r ∧ stops keywords w r = true ∧
         ∀ j r', j < start_idx → cells df_peek !! j = Some r' →
                 stops keywords w r' = false)
   ∨ (start_idx = 0 ∧ ∀ r, r ∈ cells df_peek → stops keywords w r = false)) ∧
  start_idx < Nat.max 1 (length (cells df_peek)).
Proof. intros. by eapply locate_cases. Qed.

(** ** Extent of the header block *)

Lemma all_header_like_step (df_peek : Grid) (a i : nat) (r : row) :
  cells df_peek !! a = Some r → a < i →
  (all_header_like df_peek a i ↔
   header_like r = true ∧ all_header_like df_peek (S a) i).
Proof.
  intros Ha Hlt. unfold all_header_like. split.
  - intros Hall. split.
    + destruct (Hall a) as (r' & Hr' & Hl); [lia|]. congruence.
    + intros j Hj. apply Hall. lia.
  - intros [Hl Hall] j Hj. destruct (decide (j = a)) as [->|]; [eauto|].
    apply Hall. lia.
Qed.

Lemma extend_raise (df_peek : Grid) (n a : nat) (acc : list nat) (e : exn) :
  extend df_peek (seq a n) acc = Raise e ↔
  e = IndexError ∧
  ∃ i, a ≤ i < a + n ∧ length (cells df_peek) ≤ i ∧
       all_header_like df_peek a i.
Proof.
  revert a acc. induction n as [|n IH]; intros a acc; simpl.
  - split; [done|]. intros (_ & i & Hi & _). lia.
  - unfold iloc. destruct (cells df_peek !! a) as [r|] eqn:Ha; simpl.
    + pose proof (lookup_lt_Some _ _ _ Ha) as Hlt.
      destruct (header_like r) eqn:Hl.
      * rewrite IH. split.
        -- intros (-> & i & Hi & Hlen & Hall). split; [done|].
           exists i. split; [lia|]. split; [done|].
           apply (all_header_like_step _ _ _ _ Ha); [lia|done].
        -- intros (-> & i & Hi & Hlen & Hall). split; [done|].
           exists i. split; [lia|]. split; [done|].
           apply (all_header_like_step _ _ _ _ Ha) in Hall; [tauto|lia].
      * split; [done|]. intros (_ & i & Hi & Hlen & Hall).
        apply (all_header_like_step _ _ _ _ Ha) in Hall; [|lia].
        destruct Hall as [Hl' _]. congruence.
    + apply lookup_ge_None in Ha. split.
      * intros H. injection H as <-. split; [done|].
        exists a. split; [lia|]. split; [done|]. intros j Hj. lia.
      * intros (-> & _). done.
Qed.

Lemma header_block_raise
        (window : nat) (df_peek : Grid) (start_idx : nat) (e : exn) :
  header_block window df_peek start_idx = Raise e ↔
  e = IndexError ∧
  ∃ i, start_idx < i < Nat.min (start_idx + 3) window ∧
       length (cells df_peek) ≤ i ∧
       all_header_like df_peek (start_idx + 1) i.
Proof.
  unfold header_block, range. rewrite extend_raise. split.
  - intros (-> & i & Hi & Hlen & Hall). split; [done|]. exists i.
    split; [lia|done].
  - intros (-> & i & Hi & Hlen & Hall). split; [done|]. exists i.
    split; [lia|done].
Qed.

(** X6: extending the header block raises exactly when the loop arrives at
    an index of its range for which the window has no row, every row before
    it in the range having passed the sub-header test; the exception is
    always [IndexError]. *)
Theorem header_block_raises_iff_past_last_row
        (window : nat) (df_peek : Grid) (start_idx : nat) (e : exn) :
  header_block window df_peek start_idx = Raise e ↔
  e = IndexError ∧
  ∃ i, start_idx < i < Nat.min (start_idx + 3) window ∧
       length (cells df_peek) ≤ i ∧
       all_header_like df_peek (start_idx + 1) i.
Proof. intros. by eapply header_block_raise. Qed.

Lemma extend_ok (df_peek : Grid) (n a : nat) (acc hr : list nat) :
  extend df_peek (seq a n) acc = Ok hr →
  ∃ k, k ≤ n ∧ hr = acc ++ seq a k ∧
       all_header_like df_peek a (a + k) ∧
       (k < n → ∃ r, cells df_peek !! (a + k) = Some r ∧ header_like r = false).
Proof.
  revert a acc. induction n as [|n IH]; intros a acc; simpl.
  - intros H. injection H as <-. exists 0. rewrite app_nil_r.
    split; [done|]. split; [done|]. split; [|lia]. intros j Hj. lia.
  - unfold iloc. destruct (cells df_peek !! a) as [r|] eqn:Ha; [simpl|done].
    destruct (header_like r) eqn:Hl.
    + intros H. destruct (IH _ _ H) as (k & Hk & -> & Hall & Hstop).
      exists (S k). split; [lia|]. split; [by rewrite <- app_assoc|]. split.
      * intros j Hj. destruct (decide (j = a)) as [->|]; [eauto|].
        apply Hall. lia.
      * intros Hlt. replace (a + S k) with (S a + k) by lia.
        apply Hstop. lia.
    + intros H. injection H as <-. exists 0. rewrite app_nil_r, Nat.add_0_r.
      split; [lia|]. split; [done|]. split; [|eauto]. intros j Hj. lia.
Qed.

(** C7: whenever the loop that extends the header block returns, the block
    is a contiguous range of row indices that starts with the start row
    and has at most three rows; a later row belongs to it if and only if it
    lies at most 2 rows beyond the start and inside the lookahead window,
    and it and every row between the start and it have more string cells
    than numeric cells and at least one non-missing cell: extension halts
    at the first row failing this test. The loop returns unless it arrives,
    every row before having passed the test, at an index past the last row
    of the window, where it raises [IndexError]. *)
Theorem header_block_contiguous
        (window : nat) (df_peek : Grid) (start_idx : nat) :
  match header_block window df_peek start_idx with
  | Ok header_rows =>
      header_rows = seq start_idx (length header_rows) ∧
      1 ≤ length header_rows ≤ 3 ∧
      ∀ i, i ∈ header_rows ↔
           i = start_idx ∨
           (start_idx < i < Nat.min (start_idx + 3) window ∧
            all_header_like df_peek (start_idx + 1) (i + 1))
  | Raise e =>
      e = IndexError ∧
      ∃ i, start_idx < i < Nat.min (start_idx + 3) window ∧
           length (cells df_peek) ≤ i ∧
           all_header_like df_peek (start_idx + 1) i
  end.
Proof.
  destruct (header_block window df_peek start_idx) as [hr|e] eqn:Hb.
  - unfold header_block, range in Hb.
    destruct (extend_ok _ _ _ _ _ Hb) as (k & Hk & -> & Hall & Hstop).
    replace ([start_idx] ++ seq (start_idx + 1) k) with (seq start_idx (S k))
      by (simpl; by rewrite Nat.add_1_r).
    rewrite length_seq. split; [done|]. split; [lia|].
    intros i. rewrite elem_of_seq. split.
    + intros Hi. destruct (decide (i = start_idx)) as [|Hne]; [by left|right].
      split; [lia|]. intros j Hj. apply Hall. lia.
    + intros [->|[Hi Hrows]]; [lia|].
      destruct (decide (i < start_idx + S k)); [lia|]. exfalso.
      destruct Hstop as (r & Hr & Hl); [lia|].
      destruct (Hrows (start_idx + 1 + k)) as (r' & Hr' & Hl'); [lia|].
      congruence.
  - by apply header_block_raise in Hb.
Qed.

(** ** Sheets that end inside the header block *)

(** C2: on a worksheet that ends at the start row, or at a sub-header row
    one below it, the loop that extends the header block indexes a row the
    window does not have and raises [IndexError]: the merging heuristic
    fails before any frame is materialised. *)
Theorem header_block_raises_on_short_sheet :
  header_block 20 (parse_peek 20 header_only_sheet)
               (locate anchors (parse_peek 20 header_only_sheet))
    = Raise IndexError ∧
  header_block 20 (parse_peek 20 two_header_rows_sheet)
               (locate anchors (parse_peek 20 two_header_rows_sheet))
    = Raise IndexError ∧
  read_table header_only_sheet = Raise IndexError ∧
  read_table two_header_rows_sheet = Raise IndexError ∧
  read_table [] = Raise IndexError.
Proof. repeat split; reflexivity. Qed.

(** ** Width of the frame below the header *)

Lemma length_new_columns (w : nat) (hdf : list row) :
  length (new_columns w hdf) = w.
Proof.
  unfold new_columns, range. rewrite length_fmap, length_seq. lia.
Qed.

Lemma set_columns_mismatch (g : Grid) (names : list string) :
  length names ≠ ncols g → set_columns g names = Raise ValueError.
Proof.
  intros Hne. unfold set_columns.
  destruct (Nat.eqb_spec (length names) (ncols g)); [done|reflexivity].
Qed.

Lemma set_columns_ok (g : Grid) (names : list string) (df : DataFrame) :
  set_columns g names = Ok df →
  length names = ncols g ∧ columns df = names ∧ rows df = cells g.
Proof.
  unfold set_columns.
  destruct (Nat.eqb_spec (length names) (ncols g)) as [Hlen|]; [|done].
  intros Hdf. injection Hdf as <-. done.
Qed.

Lemma read_table_mismatch (sh : sheet) (header_rows : list nat)
      (hdf : list row) :
  header_found sh header_rows hdf →
  ncols (parse_skip sh (list_max header_rows + 1)) ≠ ncols (parse_peek 20 sh) →
  read_table sh = Raise ValueError.
Proof.
  intros [Hb Hh] Hne. unfold read_table. rewrite Hb. simpl.
  rewrite Hh. simpl. rewrite set_columns_mismatch; [done|].
  rewrite length_new_columns. done.
Qed.

Lemma load_sheets_app (xls : ExcelFile) (pre post : list string)
      (reg : DataFrameRegistry.t) (acc : list string) :
  load_sheets xls (pre ++ post) reg acc =
  match load_sheets xls pre reg acc with
  | (reg', Ok acc') => load_sheets xls post reg' acc'
  | (reg', Raise e) => (reg', Raise e)
  end.
Proof.
  revert reg acc. induction pre as [|n pre IH]; intros reg acc; [done|].
  simpl. destruct (do sh <- worksheet xls n; read_table sh) as [[df hr]|e];
    [apply IH|done].
Qed.

(** C4, amended: if the synthesized column-name sequence has a different
    width than the re-sliced data rows below the header block, assigning the
    names raises [ValueError]; the error is surfaced to the caller, nothing
    is repaired, and it ends [load_excel] at that worksheet: the worksheets
    loaded before it stay registered, the affected worksheet and every
    later one are not loaded. *)
Theorem width_mismatch_aborts_load
        (xls : ExcelFile) (pre post : list string) (name : string)
        (sh : sheet) (header_rows : list nat) (hdf : list row)
        (reg reg' : DataFrameRegistry.t) (acc acc' : list string) :
  load_sheets xls pre reg acc = (reg', Ok acc') →
  worksheet xls name = Ok sh →
  header_found sh header_rows hdf →
  ncols (parse_skip sh (list_max header_rows + 1)) ≠ ncols (parse_peek 20 sh) →
  read_table sh = Raise ValueError ∧
  load_sheets xls (pre ++ name :: post) reg acc = (reg', Raise ValueError).
Proof.
  intros Hpre Hws Hfound Hne.
  pose proof (read_table_mismatch sh header_rows hdf Hfound Hne) as Hrt.
  split; [done|]. rewrite load_sheets_app, Hpre. simpl.
  rewrite Hws. simpl. rewrite Hrt. done.
Qed.

(** ** Collision suffixes *)

Lemma occurrences_snoc (b : string) (cols : list string) (c : string) :
  occurrences b (cols ++ [c]) =
  occurrences b cols + (if decide (base_name c = b) then 1 else 0).
Proof.
  unfold occurrences. rewrite filter_app, length_app. f_equal.
  rewrite filter_cons, filter_nil. by case_decide.
Qed.

Lemma normalize_step_spec (done_cols out : list string)
      (seen : gmap string nat) (c : string) :
  seen_after done_cols seen →
  ∃ seen',
    normalize_step (out, seen) c =
      (out ++ [suffixed (base_name c) (occurrences (base_name c) done_cols)],
       seen') ∧
    seen_after (done_cols ++ [c]) seen'.
Proof.
  intros Hseen. unfold normalize_step. simpl.
  pose proof (Hseen (base_name c)) as Hb.
  destruct (occurrences (base_name c) done_cols) as [|n] eqn:Hocc;
    rewrite Hb; eexists; (split; [reflexivity|]);
    intros b; rewrite occurrences_snoc; case_decide as Hdec.
  - subst b. rewrite Hocc, lookup_insert_eq. done.
  - rewrite lookup_insert_ne, Nat.add_0_r by done. apply Hseen.
  - subst b. rewrite Hocc, lookup_insert_eq. simpl.
    by rewrite Nat.add_1_r.
  - rewrite lookup_insert_ne, Nat.add_0_r by done. apply Hseen.
Qed.

Lemma normalize_fold (cols done_cols out : list string)
      (seen : gmap string nat) :
  seen_after done_cols seen →
  (foldl normalize_step (out, seen) cols).1 = out ++ canonical done_cols cols.
Proof.
  revert done_cols out seen.
  induction cols as [|c cols IH]; intros done_cols out seen Hseen; simpl.
  - by rewrite app_nil_r.
  - destruct (normalize_step_spec done_cols out seen c Hseen)
      as (seen' & -> & Hseen').
    rewrite (IH _ _ _ Hseen'). by rewrite <- app_assoc.
Qed.

Lemma seen_after_nil : seen_after [] ∅.
Proof. intros b. by rewrite lookup_empty. Qed.

Lemma normalize_names_canonical (cols : list string) :
  normalize_names cols = canonical [] cols.
Proof.
  unfold normalize_names. by rewrite (normalize_fold cols [] [] ∅ seen_after_nil).
Qed.

Lemma canonical_lookup (cols done_cols : list string) (i : nat) (c : string) :
  cols !! i = Some c →
  canonical done_cols cols !! i =
    Some (suffixed (base_name c)
                   (occurrences (base_name c) (done_cols ++ take i cols))).
Proof.
  revert done_cols i.
  induction cols as [|c0 cols IH]; intros done_cols i Hi.
  - by rewrite lookup_nil in Hi.
  - destruct i as [|i]; simpl in *.
    + injection Hi as ->. by rewrite app_nil_r.
    + rewrite (IH _ _ Hi). by rewrite <- app_assoc.
Qed.

Lemma length_canonical (cols done_cols : list string) :
  length (canonical done_cols cols) = length cols.
Proof.
  revert done_cols. induction cols as [|c cols IH]; intros; simpl; [done|].
  by rewrite IH.
Qed.

(** C6: columns are processed left to right with one running count per base
    name; the column at position [i] is emitted as its base name when no
    column to its left has that base name, and as [base_N] when [N >= 1]
    columns to its left have it. In particular ["Plot"; "plot"; "PLOT"]
    becomes ["plot"; "plot_1"; "plot_2"]. *)
Theorem collision_suffix_order_stable (cols : list string) (i : nat) (c : string) :
  cols !! i = Some c →
  let base := base_name c in
  let N := occurrences base (take i cols) in
  normalize_names cols !! i =
    Some (if decide (N = 0) then base else base +:+ "_" +:+ Py.str_of_nat N) ∧
  length (normalize_names cols) = length cols ∧
  normalize_names ["Plot"; "plot"; "PLOT"] = ["plot"; "plot_1"; "plot_2"].
Proof.
  intros Hi base N. split; [|split].
  - rewrite normalize_names_canonical, (canonical_lookup _ _ _ _ Hi).
    simpl. fold base N. by destruct N.
  - by rewrite normalize_names_canonical, length_canonical.
  - by vm_compute.
Qed.

(** C3: on raw names ["plot"; "plot"; "plot_1"] the second column is renamed
    [plot_1], and the third, whose base name [plot_1] has not been seen as a
    base name, is emitted unchanged: the finished table has two columns
    named [plot_1]. Its rows are as wide as its list of names. *)
Theorem suffixed_name_collides :
  normalize_names ["plot"; "plot"; "plot_1"] = ["plot"; "plot_1"; "plot_1"] ∧
  ∃ df,
    read_table repeated_plot_sheet = Ok (df, [0]) ∧
    columns df = ["plot"; "plot_1"; "plot_1"] ∧
    rows df = [[Number "1"; Number "2"; Number "3"]] ∧
    ¬ NoDup (columns df).
Proof.
  split; [by vm_compute|].
  eexists. split; [by vm_compute|]. simpl. split; [done|]. split; [done|].
  intros Hnd. apply NoDup_cons in Hnd as [_ Hnd].
  apply NoDup_cons in Hnd as [Hnotin _]. apply Hnotin. left.
Qed.

(** ** Cleaning comes before normalisation *)

Lemma existsb_notnull_nth (r : row) (j : nat) :
  notnull (nth j r Missing) = true → existsb notnull r = true.
Proof.
  revert j. induction r as [|v r IH]; intros j H.
  - by destruct j.
  - destruct j as [|j]; simpl in *; [by rewrite H|].
    rewrite (IH j H). by destruct (notnull v).
Qed.

(** Dropping the empty rows first does not change which columns are empty. *)
Lemma column_empty_after_dropna_rows (df : DataFrame) (j : nat) :
  existsb notnull (column_values (dropna_rows df) j) =
  existsb notnull (column_values df j).
Proof.
  unfold column_values, dropna_rows. simpl.
  induction (rows df) as [|r rs IH]; [done|].
  csimpl. destruct (existsb notnull r) eqn:Hr; csimpl.
  - by rewrite IH.
  - rewrite IH. destruct (notnull (nth j r Missing)) eqn:Hj; [|done].
    apply existsb_notnull_nth in Hj. congruence.
Qed.

Lemma kept_columns_dropna_rows (df : DataFrame) :
  kept_columns (dropna_rows df) = kept_columns df.
Proof.
  unfold kept_columns. simpl.
  induction (range 0 (length (columns df))) as [|j js IH]; [done|].
  simpl. by rewrite column_empty_after_dropna_rows, IH.
Qed.

Lemma elem_of_kept_columns (df : DataFrame) (j : nat) :
  j ∈ kept_columns df ↔
  j < length (columns df) ∧
  ∃ r, r ∈ rows df ∧ notnull (nth j r Missing) = true.
Proof.
  unfold kept_columns, range.
  rewrite list_elem_of_In, filter_In, <- list_elem_of_In, elem_of_seq.
  rewrite existsb_exists. unfold column_values. split.
  - intros [Hj (v & Hv & Hnn)]. split; [lia|].
    apply list_elem_of_In, list_elem_of_fmap in Hv as (r & -> & Hr). eauto.
  - intros [Hj (r & Hr & Hnn)]. split; [lia|].
    exists (nth j r Missing). split; [|done].
    apply list_elem_of_In, list_elem_of_fmap. eauto.
Qed.

Lemma read_table_ok (sh : sheet) (df : DataFrame) (header_rows : list nat) :
  read_table sh = Ok (df, header_rows) →
  ∃ hdf,
    header_found sh header_rows hdf ∧
    df = _normalize_column_names
           (dropna_cols (dropna_rows (raw_frame sh header_rows hdf))).
Proof.
  unfold read_table, header_found.
  destruct (header_block 20 _ _) as [hr|] eqn:Hb; [simpl|done].
  destruct (header_df _ hr) as [hdf|] eqn:Hh; [simpl|done].
  destruct (set_columns _ _) as [raw|] eqn:Hraw; [simpl|done].
  intros H. injection H as <- <-. exists hdf. split; [done|].
  apply set_columns_ok in Hraw as (_ & Hc & Hr).
  unfold raw_frame. simpl. rewrite <- Hc, <- Hr. by destruct raw.
Qed.

(** The rows of a finished table are as wide as its list of names. *)
Lemma read_table_rectangular (sh : sheet) (df : DataFrame)
      (header_rows : list nat) :
  read_table sh = Ok (df, header_rows) →
  Forall (λ r, length r = length (columns df)) (rows df).
Proof.
  intros Hrt. destruct (read_table_ok _ _ _ Hrt) as (hdf & _ & ->).
  simpl. rewrite normalize_names_canonical, length_canonical, length_fmap.
  apply Forall_fmap, Forall_forall. intros r _. simpl.
  by rewrite length_fmap.
Qed.

Lemma list_filter_sublist {A} (p : A → bool) (l : list A) :
  List.filter p l `sublist_of` l.
Proof.
  induction l as [|x l IH]; simpl; [done|].
  destruct (p x); [by apply sublist_skip|by apply sublist_cons].
Qed.

(** C10: the rows of the finished table are the rows below the header block
    that have a non-missing cell, and its columns are the columns that have
    a non-missing value below the header, both in their order; the name of
    each column is its base name with the suffix counted over the surviving
    columns to its left only, so a fully-empty column adds nothing to the
    suffix of a later column with the same base name. *)
Theorem suffixes_count_surviving_columns
        (sh : sheet) (df : DataFrame) (header_rows : list nat) :
  read_table sh = Ok (df, header_rows) →
  ∃ hdf,
    header_found sh header_rows hdf ∧
    let raw := raw_frame sh header_rows hdf in
    let kept := kept_columns raw in
    let name j := nth j (columns raw) "" in
    kept `sublist_of` seq 0 (length (columns raw)) ∧
    (∀ j, j ∈ kept ↔
          j < length (columns raw) ∧
          ∃ r, r ∈ rows raw ∧ notnull (nth j r Missing) = true) ∧
    rows df = project kept <$> List.filter (existsb notnull) (rows raw) ∧
    length (columns df) = length kept ∧
    ∀ p j, kept !! p = Some j →
           columns df !! p =
             Some (suffixed (base_name (name j))
                     (occurrences (base_name (name j)) (name <$> take p kept))).
Proof.
  intros Hrt. destruct (read_table_ok _ _ _ Hrt) as (hdf & Hfound & ->).
  exists hdf. split; [done|]. intros raw kept name.
  split.
  { unfold kept, kept_columns, range. rewrite Nat.sub_0_r.
    apply list_filter_sublist. }
  split; [apply elem_of_kept_columns|].
  simpl. rewrite kept_columns_dropna_rows. fold raw kept name.
  split; [done|].
  rewrite normalize_names_canonical. split.
  - by rewrite length_canonical, length_fmap.
  - intros p j Hp. rewrite (canonical_lookup _ _ p (name j)).
    + simpl. by rewrite fmap_take.
    + by rewrite list_lookup_fmap, Hp.
Qed.

(** ** The base name of a column *)


(** ** Composite column names *)


Lemma length_ffill_from (r : row) (v0 : cell) :
  length (ffill_from v0 r) = length r.
Proof.
  revert v0. induction r as [|v r IH]; intros v0; simpl; [done|].
  by rewrite IH.
Qed.




Lemma fragments_fold (vals : list string) :
  fragments_of vals (foldl add_fragment [] vals).
Proof.
  induction vals as [|v vals IH] using rev_ind.
  - split; simpl; [done| | constructor | |];
      intros ? H; by apply elem_of_nil in H.
  - rewrite foldl_snoc. set (parts := foldl add_fragment [] vals) in *.
    destruct IH as [Hsub Hne Hnd Hcov Hfirst].
    assert (∀ p i, vals !! i = Some p →
                   (∀ j u, j < i → vals !! j = Some u →
                           Py.lower u ≠ Py.lower p) →
                   (vals ++ [v]) !! i = Some p ∧
                   ∀ j u, j < i → (vals ++ [v]) !! j = Some u →
                          Py.lower u ≠ Py.lower p) as Hlift.
    { intros p i Hi Hbefore. pose proof (lookup_lt_Some _ _ _ Hi) as Hlt.
      split; [by rewrite lookup_app_l|].
      intros j u Hj Hu. rewrite lookup_app_l in Hu by lia. eauto. }
    unfold add_fragment.
    destruct (bool_decide (v ≠ "")) eqn:Hv;
      [apply bool_decide_eq_true in Hv|apply bool_decide_eq_false in Hv];
      [destruct (bool_decide (Py.lower v ∉ Py.lower <$> parts)) eqn:Hin;
       [apply bool_decide_eq_true in Hin|apply bool_decide_eq_false in Hin]|];
      simpl.
    + (* the value is kept *)
      split.
      * by apply sublist_app.
      * intros p [Hp| ->%list_elem_of_singleton]%elem_of_app; [eauto|done].
      * rewrite fmap_app. apply NoDup_app. split; [done|].
        split; [|apply NoDup_singleton].
        intros x Hx ->%list_elem_of_singleton. done.
      * intros u [Hu| ->%list_elem_of_singleton]%elem_of_app Hune;
          rewrite fmap_app, elem_of_app; [left; eauto|right; left].
      * intros p [Hp| ->%list_elem_of_singleton]%elem_of_app.
        -- destruct (Hfirst p Hp) as (i & Hi & Hbefore).
           exists i. by apply Hlift.
        -- exists (length vals). split; [by rewrite list_lookup_middle|].
           intros j u Hj Hu Heq. rewrite lookup_app_l in Hu by done.
           destruct (decide (u = "")) as [->|Hune].
           ++ symmetry in Heq. by apply lower_empty in Heq.
           ++ apply Hin. rewrite <- Heq. apply Hcov; [|done].
              by eapply list_elem_of_lookup_2.
    + (* a value of that lowercase form was kept before *)
      split; [by apply sublist_inserts_r|done|done| |].
      * intros u [Hu| ->%list_elem_of_singleton]%elem_of_app Hune; [eauto|].
        by apply dec_stable.
      * intros p Hp. destruct (Hfirst p Hp) as (i & Hi & Hbefore).
        exists i. by apply Hlift.
    + (* the value is empty *)
      split; [by apply sublist_inserts_r|done|done| |].
      * intros u [Hu| ->%list_elem_of_singleton]%elem_of_app Hune; [eauto|].
        exfalso. apply Hv. done.
      * intros p Hp. destruct (Hfirst p Hp) as (i & Hi & Hbefore).
        exists i. by apply Hlift.
Qed.

Lemma column_parts_fold (hdf : list row) (col : nat) :
  column_parts hdf col = foldl add_fragment [] (trimmed_values hdf col).
Proof. unfold column_parts, trimmed_values. by rewrite foldl_fmap. Qed.


(** ** The two ways reading a worksheet fails *)

Lemma extend_ok_bound (df_peek : Grid) (idxs acc hr : list nat) :
  extend df_peek idxs acc = Ok hr →
  ∀ i, i ∈ hr → i ∈ acc ∨ i < length (cells df_peek).
Proof.
  revert acc. induction idxs as [|a idxs IH]; intros acc; simpl.
  - intros H. injection H as <-. auto.
  - unfold iloc. destruct (cells df_peek !! a) as [r|] eqn:Ha; [simpl|done].
    destruct (header_like r).
    + intros H i Hi. destruct (IH _ H i Hi) as [Hin|Hlt]; [|by right].
      apply elem_of_app in Hin as [Hin| ->%list_elem_of_singleton];
        [by left|right].
      by eapply lookup_lt_Some.
    + intros H. injection H as <-. auto.
Qed.

Lemma header_df_total (df_peek : Grid) (header_rows : list nat) :
  (∀ i, i ∈ header_rows → i < length (cells df_peek)) →
  ∃ hdf, header_df df_peek header_rows = Ok hdf.
Proof.
  induction header_rows as [|i hr IH]; intros Hall; simpl; [eauto|].
  unfold iloc.
  destruct (lookup_lt_is_Some_2 (cells df_peek) i) as [r ->];
    [apply Hall; left|].
  destruct IH as [hdf ->]; [intros j Hj; apply Hall; by right|].
  simpl. eauto.
Qed.

Lemma header_block_ok_in_window (sh : sheet) (header_rows : list nat) :
  header_block 20 (parse_peek 20 sh) (locate anchors (parse_peek 20 sh))
    = Ok header_rows →
  ∀ i, i ∈ header_rows → i < length (cells (parse_peek 20 sh)).
Proof.
  generalize (parse_peek 20 sh). intros df_peek Hb i Hi.
  destruct (extend_ok_bound _ _ _ _ Hb i Hi) as [Hin|]; [|done].
  apply list_elem_of_singleton in Hin as ->.
  destruct (locate_cases anchors df_peek) as [_ Hlt].
  simpl in Hlt.
  destruct (decide (length (cells df_peek) = 0)) as [Hzero|]; [|lia].
  exfalso.
  assert (header_block 20 df_peek (locate anchors df_peek) = Raise IndexError)
    as Hraise.
  { apply header_block_raise. split; [done|].
    assert (locate anchors df_peek = 0) as -> by lia.
    exists 1. split; [simpl; lia|]. split; [lia|].
    intros j Hj. lia. }
  congruence.
Qed.

(** X7: reading one worksheet fails in two ways only: with [IndexError]
    while the header block is extended, which needs a window of fewer than
    20 rows, or with [ValueError] when the column names are assigned, the
    frame below the header block not having the width of the window. *)
Theorem read_table_fails_two_ways (sh : sheet) (e : exn) :
  read_table sh = Raise e →
  (e = IndexError ∧ length (cells (parse_peek 20 sh)) < 20 ∧
   header_block 20 (parse_peek 20 sh) (locate anchors (parse_peek 20 sh))
     = Raise IndexError)
  ∨ (e = ValueError ∧
     ∃ header_rows hdf,
       header_found sh header_rows hdf ∧
       ncols (parse_skip sh (list_max header_rows + 1))
         ≠ ncols (parse_peek 20 sh)).
Proof.
  unfold read_table.
  destruct (header_block 20 _ _) as [hr|e0] eqn:Hb; simpl.
  - destruct (header_df_total (parse_peek 20 sh) hr) as [hdf Hh];
      [by apply header_block_ok_in_window|].
    rewrite Hh. simpl.
    destruct (set_columns _ _) as [df|e1] eqn:Hset; simpl; [done|].
    intros H. injection H as <-. right.
    unfold set_columns in Hset. rewrite length_new_columns in Hset.
    match type of Hset with
    | (if ?a =? ?b then _ else _) = _ =>
        destruct (Nat.eqb_spec a b) as [|Hne]
    end; [done|].
    injection Hset as <-. split; [done|]. exists hr, hdf.
    split; [by split|]. intros E. apply Hne. symmetry. exact E.
  - intros H. injection H as <-. left.
    pose proof Hb as Hb'.
    apply header_block_raise in Hb'
      as (-> & i & Hi & Hlen & _).
    split; [done|]. split; [|done].
    eapply Nat.le_lt_trans; [exact Hlen|lia].
Qed.

(** ** What cleaning leaves *)

Lemma raw_frame_rectangular (sh : sheet) (header_rows : list nat)
      (hdf : list row) (df : DataFrame) :
  set_columns (parse_skip sh (list_max header_rows + 1))
              (new_columns (ncols (parse_peek 20 sh)) hdf) = Ok df →
  rectangular (raw_frame sh header_rows hdf).
Proof.
  intros Hset. apply set_columns_ok in Hset as (Hlen & _ & _).
  rewrite length_new_columns in Hlen.
  unfold rectangular, raw_frame. cbn [columns rows].
  rewrite length_new_columns, Hlen. apply parse_skip_rectangular.
Qed.

Lemma nth_project (r : row) (keep : list nat) (j : nat) :
  nth j ((λ c, nth c r Missing) <$> keep) Missing =
  match keep !! j with
  | Some c => nth c r Missing
  | None => Missing
  end.
Proof.
  revert j. induction keep as [|c keep IH]; intros [|j]; simpl; auto.
Qed.

Lemma existsb_notnull_inv (r : row) :
  existsb notnull r = true →
  ∃ p, p < length r ∧ notnull (nth p r Missing) = true.
Proof.
  induction r as [|v r IH]; simpl; [done|].
  destruct (notnull v) eqn:Hv.
  - intros _. exists 0. split; [lia|done].
  - simpl. intros H. destruct (IH H) as (p & Hp & Hnn).
    exists (S p). split; [lia|done].
Qed.

(** Restricting a row of a rectangular frame to the surviving columns keeps
    it non-empty exactly when it was. *)
Lemma existsb_notnull_project (df : DataFrame) (r : row) :
  rectangular df → r ∈ rows df →
  existsb notnull ((λ c, nth c r Missing) <$> kept_columns df) =
  existsb notnull r.
Proof.
  intros Hrect Hr.
  destruct (existsb notnull r) eqn:Hex.
  - destruct (existsb_notnull_inv r Hex) as (p & Hp & Hnn).
    apply existsb_exists. exists (nth p r Missing). split; [|done].
    apply list_elem_of_In, list_elem_of_fmap. exists p. split; [done|].
    apply elem_of_kept_columns. split; [|eauto].
    unfold rectangular in Hrect. rewrite Forall_forall in Hrect.
    rewrite <- (Hrect r Hr). done.
  - apply not_true_iff_false. intros Hp. apply existsb_exists in Hp
      as (v & Hv & Hnn).
    apply list_elem_of_In, list_elem_of_fmap in Hv as (c & -> & _).
    apply existsb_notnull_nth in Hnn. congruence.
Qed.

Lemma filter_fmap_commute {A} (p : A → bool) (f : A → A) (l : list A) :
  (∀ x, x ∈ l → p (f x) = p x) →
  List.filter p (f <$> l) = f <$> List.filter p l.
Proof.
  induction l as [|x l IH]; intros Hp; [done|].
  csimpl. rewrite (Hp x) by left. rewrite IH by (intros y Hy; apply Hp; by right).
  by destruct (p x).
Qed.

Lemma dropna_commute (df : DataFrame) :
  rectangular df →
  dropna_cols (dropna_rows df) = dropna_rows (dropna_cols df).
Proof.
  intros Hrect. pose proof (kept_columns_dropna_rows df) as Hkept.
  unfold dropna_cols, dropna_rows in *. cbn [columns rows] in *.
  rewrite Hkept. f_equal.
  symmetry. apply filter_fmap_commute.
  intros r Hr. by apply existsb_notnull_project.
Qed.

(** X8: on a frame in which every row has one cell per column name, dropping
    the all-missing rows and dropping the all-missing columns can be done
    in either order with the same result. *)
Theorem dropna_passes_commute (df : DataFrame) :
  rectangular df →
  dropna_cols (dropna_rows df) = dropna_rows (dropna_cols df).
Proof. intros. by eapply dropna_commute. Qed.

Lemma cleaned_no_empty (df : DataFrame) :
  rectangular df → no_empty_row_or_column (dropna_cols (dropna_rows df)).
Proof.
  intros Hrect. rewrite (dropna_commute df Hrect). split.
  - simpl. apply Forall_forall. intros r Hr.
    apply list_elem_of_In, filter_In in Hr. tauto.
  - rewrite <- (dropna_commute df Hrect). simpl.
    rewrite kept_columns_dropna_rows, length_fmap. intros j Hj.
    destruct (lookup_lt_is_Some_2 (kept_columns df) j Hj) as [c Hc].
    assert (c ∈ kept_columns (dropna_rows df)) as Hin.
    { rewrite kept_columns_dropna_rows. by eapply list_elem_of_lookup_2. }
    apply elem_of_kept_columns in Hin as (_ & r & Hr & Hnn).
    apply existsb_exists. exists (nth c r Missing). split; [|done].
    apply list_elem_of_In. unfold column_values. simpl.
    apply list_elem_of_fmap.
    exists ((λ c0, nth c0 r Missing) <$> kept_columns df).
    split; [by rewrite nth_project, Hc|].
    apply list_elem_of_fmap. exists r.
    by rewrite kept_columns_dropna_rows.
Qed.

Lemma read_table_no_empty (sh : sheet) (df : DataFrame)
        (header_rows : list nat) :
  read_table sh = Ok (df, header_rows) →
  rectangular df ∧ no_empty_row_or_column df.
Proof.
  intros Hrt. split; [by eapply read_table_rectangular|].
  unfold read_table in Hrt.
  destruct (header_block 20 _ _) as [hr|] eqn:Hb; [simpl in Hrt|done].
  destruct (header_df _ hr) as [hdf|] eqn:Hh; [simpl in Hrt|done].
  destruct (set_columns _ _) as [raw|] eqn:Hraw; [simpl in Hrt|done].
  injection Hrt as <- <-.
  pose proof (raw_frame_rectangular _ _ _ _ Hraw) as Hrect.
  apply set_columns_ok in Hraw as (_ & Hc & Hr).
  assert (raw = raw_frame sh hr hdf) as ->.
  { destruct raw as [cs rs]. simpl in Hc, Hr. subst cs rs. reflexivity. }
  destruct (cleaned_no_empty _ Hrect) as [Hrows Hcols].
  split; [done|]. simpl.
  rewrite normalize_names_canonical, length_canonical. apply Hcols.
Qed.

(** X9: a table read from a worksheet has one cell per column name in every
    row, no row in which every cell is missing and no column in which every
    cell is missing. *)
Theorem read_table_is_clean (sh : sheet) (df : DataFrame)
        (header_rows : list nat) :
  read_table sh = Ok (df, header_rows) →
  rectangular df ∧ no_empty_row_or_column df.
Proof. intros. by eapply read_table_no_empty. Qed.

(** ** More on name normalisation *)

Lemma occurrences_zero (b : string) (cols : list string) :
  b ∉ base_name <$> cols → occurrences b cols = 0.
Proof.
  unfold occurrences. induction cols as [|c cols IH]; [done|].
  rewrite fmap_cons, not_elem_of_cons. intros [Hne Hnin].
  rewrite filter_cons_False by (intros Heq; by apply Hne). by apply IH.
Qed.

Lemma canonical_distinct (done_cols cols : list string) :
  NoDup (base_name <$> (done_cols ++ cols)) →
  canonical done_cols cols = base_name <$> cols.
Proof.
  revert done_cols. induction cols as [|c cols IH]; intros done_cols Hnd;
    [done|].
  simpl. rewrite occurrences_zero.
  - simpl. f_equal. apply IH. by rewrite <- app_assoc.
  - rewrite fmap_app, fmap_cons in Hnd.
    apply NoDup_app in Hnd as (_ & Hdisj & _).
    intros Hin. apply (Hdisj _ Hin). left.
Qed.

(** X11: when the base names of the columns are pairwise distinct, no suffix
    is added: every column gets its base name, and the resulting names are
    pairwise distinct. *)
Theorem normalize_names_distinct_bases (cols : list string) :
  NoDup (base_name <$> cols) →
  normalize_names cols = base_name <$> cols ∧
  NoDup (normalize_names cols).
Proof.
  intros Hnd.
  assert (normalize_names cols = base_name <$> cols) as E.
  { rewrite normalize_names_canonical. by apply canonical_distinct. }
  split; [done|]. by rewrite E.
Qed.

Lemma length_string_app (s t : string) :
  String.length (s +:+ t) = String.length s + String.length t.
Proof. induction s as [|c s IH]; [done|]. simpl. by rewrite IH. Qed.

Lemma suffixed_inj (b : string) (n m : nat) :
  suffixed b n = suffixed b m → n = m.
Proof.
  destruct n as [|n], m as [|m]; simpl; [done| | |].
  - intros H. apply (f_equal String.length) in H.
    rewrite !length_string_app in H. simpl in H. lia.
  - intros H. apply (f_equal String.length) in H.
    rewrite !length_string_app in H. simpl in H. lia.
  - intros H. apply (inj (String.app b)), (inj (String.app "_")) in H.
    by apply (inj pretty) in H.
Qed.

Lemma occurrences_take_lt (cols : list string) (i j : nat) (c : string) :
  cols !! i = Some c → i < j →
  occurrences (base_name c) (take i cols)
    < occurrences (base_name c) (take j cols).
Proof.
  intros Hi Hlt.
  assert (take j cols = take i cols ++ c :: take (j - S i) (drop (S i) cols))
    as ->.
  { rewrite <- (take_drop_middle cols i c Hi) at 1.
    rewrite take_app_ge by (rewrite length_take; lia).
    rewrite length_take. apply lookup_lt_Some in Hi.
    replace (j - i `min` length cols) with (S (j - S i)) by lia.
    done. }
  unfold occurrences. rewrite filter_app, filter_cons_True by done.
  rewrite length_app. simpl. lia.
Qed.

(** X12: two columns with the same base name never receive the same
    canonical name. *)
Theorem same_base_names_never_collide
        (cols : list string) (i j : nat) (ci cj : string) :
  cols !! i = Some ci → cols !! j = Some cj → i ≠ j →
  base_name ci = base_name cj →
  normalize_names cols !! i ≠ normalize_names cols !! j.
Proof.
  intros Hi Hj Hne Hbase.
  rewrite normalize_names_canonical.
  rewrite (canonical_lookup _ _ _ _ Hi), (canonical_lookup _ _ _ _ Hj).
  simpl. rewrite <- Hbase. intros H. injection H as H.
  apply suffixed_inj in H.
  destruct (decide (i < j)).
  - pose proof (occurrences_take_lt cols i j ci Hi ltac:(done)). lia.
  - pose proof (occurrences_take_lt cols j i cj Hj ltac:(lia)) as Hlt.
    rewrite <- Hbase in Hlt. lia.
Qed.

(** ** Column names are never empty *)

Lemma join_cons (sep p : string) (ps : list string) :
  Py.join sep (p :: ps) =
  p +:+ match ps with [] => "" | _ :: _ => sep +:+ Py.join sep ps end.
Proof. destruct ps; simpl; [by rewrite string_app_nil_r|done]. Qed.

(** A composite name has a character that is not whitespace. *)
Lemma column_name_not_blank (hdf : list row) (col : nat) :
  Py.strip (column_name hdf col) ≠ "".
Proof.
  unfold column_name.
  pose proof (fragments_fold (trimmed_values hdf col)) as [Hsub Hne _ _ _].
  rewrite <- column_parts_fold in Hsub, Hne.
  destruct (column_parts hdf col) as [|p ps].
  - apply (strip_nonempty _ "u"); [|reflexivity].
    change (Py.chars ("unnamed_" +:+ Py.str_of_nat col))
      with ("u" :: Py.chars ("nnamed_" +:+ Py.str_of_nat col)).
    left.
  - rewrite join_cons.
    set (t := match ps with [] => "" | _ :: _ => "_" +:+ Py.join "_" ps end).
    assert (Py.starts_inside t = false) as Ht by (by destruct ps).
    assert (p ∈ trimmed_values hdf col) as Hin.
    { eapply elem_of_sublist; [left|exact Hsub]. }
    apply list_elem_of_fmap in Hin as (v & Hp & _).
    destruct (trim_chars (str v) p t) as (m & Hm & Hchars & Hhd & Hall);
      [rewrite Hp; apply strip_is_trim|done|].
    destruct m as [|ch m].
    + exfalso. apply (Hne p); [left|done].
    + apply (strip_nonempty _ ch); [rewrite Hchars; left|by apply Hhd].
Qed.

Lemma base_name_nonempty (col : string) :
  Py.strip col ≠ "" → base_name col ≠ "".
Proof.
  intros Hs Hb. unfold base_name in Hb.
  by apply replace_empty, lower_empty in Hb.
Qed.

Lemma suffixed_nonempty (b : string) (n : nat) : b ≠ "" → suffixed b n ≠ "".
Proof. destruct n; [done|]. by destruct b. Qed.

Lemma canonical_elem (done_cols cols : list string) (x : string) :
  x ∈ canonical done_cols cols →
  ∃ c n, c ∈ cols ∧ x = suffixed (base_name c) n.
Proof.
  revert done_cols. induction cols as [|c cols IH]; intros done_cols; simpl.
  - by intros ?%elem_of_nil.
  - intros [->|Hx]%elem_of_cons.
    + exists c, (occurrences (base_name c) done_cols). split; [left|done].
    + destruct (IH _ Hx) as (c' & n & Hc' & ->).
      exists c', n. split; [by right|done].
Qed.

Lemma new_columns_nth (w : nat) (hdf : list row) (j : nat) :
  j < w → nth j (new_columns w hdf) "" = column_name hdf j.
Proof.
  intros Hj. rewrite nth_lookup. unfold new_columns, range.
  rewrite list_lookup_fmap, lookup_seq_lt by lia. done.
Qed.

Lemma read_table_names (sh : sheet) (df : DataFrame)
        (header_rows : list nat) :
  read_table sh = Ok (df, header_rows) →
  ∀ c, c ∈ columns df → c ≠ "".
Proof.
  intros Hrt c Hc.
  destruct (read_table_ok _ _ _ Hrt) as (hdf & _ & ->).
  simpl in Hc. rewrite normalize_names_canonical in Hc.
  apply canonical_elem in Hc as (raw & n & Hraw & ->).
  apply suffixed_nonempty, base_name_nonempty.
  apply list_elem_of_fmap in Hraw as (j & -> & Hj).
  apply elem_of_kept_columns in Hj as [Hj _]. simpl in Hj.
  rewrite length_new_columns in Hj.
  rewrite new_columns_nth by done. apply column_name_not_blank.
Qed.

(** X13: every column of a table read from a worksheet has a name that is
    not the empty string. *)
Theorem read_table_names_nonempty (sh : sheet) (df : DataFrame)
        (header_rows : list nat) :
  read_table sh = Ok (df, header_rows) →
  ∀ c, c ∈ columns df → c ≠ "".
Proof. intros. by eapply read_table_names. Qed.

(** ** What the loaders do to the registry *)

Lemma registered_get (reg : DataFrameRegistry.t) (n : string) :
  DataFrameRegistry.registered reg n ↔
  is_ok (DataFrameRegistry.get reg n) = true.
Proof.
  unfold DataFrameRegistry.registered, DataFrameRegistry.get.
  destruct (decide (n ∈ Dict.keys (DataFrameRegistry._tables reg)))
    as [Hin|Hnin].
  - destruct (dict_get_present _ _ Hin) as (e & -> & _). done.
  - rewrite dict_get_missing by done. simpl. split; [done|discriminate].
Qed.

Lemma registered_register (reg : DataFrameRegistry.t) (name n : string)
      (df : DataFrame) (md : option Metadata) :
  DataFrameRegistry.registered (DataFrameRegistry.register reg name df md) n ↔
  n = name ∨ DataFrameRegistry.registered reg n.
Proof.
  unfold DataFrameRegistry.registered, DataFrameRegistry.register. simpl.
  rewrite dict_set_keys. case_decide as Hin.
  - split; [by right|]. by intros [->|?].
  - rewrite elem_of_app, list_elem_of_singleton. tauto.
Qed.

Lemma loads_well_register (reg : DataFrameRegistry.t) (name : string)
      (df : DataFrame) (md : option Metadata) :
  loads_well reg (DataFrameRegistry.register reg name df md, Ok [name]).
Proof.
  split; [|split]; simpl.
  - intros n Hn. apply registered_register. by right.
  - apply RegistryFacts.wf_register.
  - intros names H n Hn. injection H as <-.
    apply list_elem_of_singleton in Hn as ->.
    apply registered_get, registered_register. by left.
Qed.

Lemma loads_well_raise (reg : DataFrameRegistry.t) (e : exn) :
  loads_well reg (reg, Raise e).
Proof. split; [|split]; simpl; done. Qed.

(** A loop of loaders, each of which loads well, loads well; a name already
    collected stays registered. *)
Lemma load_each_well (load : DataFrameRegistry.t → File → Loaded)
      (files : list File) (reg : DataFrameRegistry.t) (names : list string) :
  (∀ r f, loads_well r (load r f)) →
  (∀ n, n ∈ names → DataFrameRegistry.registered reg n) →
  loads_well reg (load_each load files reg names).
Proof.
  intros Hload. revert reg names.
  induction files as [|f files IH]; intros reg names Hnames; simpl.
  - split; [|split]; simpl; [done..|].
    intros ns H n Hn. injection H as <-. by apply registered_get, Hnames.
  - destruct (Hload reg f) as (Hkeep & Hwf & Hret).
    destruct (load reg f) as [reg1 [loaded|e]]; simpl in *.
    + destruct (IH reg1 (names ++ loaded)) as (Hkeep' & Hwf' & Hret').
      { intros n [Hn|Hn]%elem_of_app; [by apply Hkeep, Hnames|].
        by apply registered_get, (Hret loaded). }
      split; [|split]; [by auto..|done].
    + split; [|split]; simpl; done.
Qed.

Lemma load_sheets_well (xls : ExcelFile) (names : list string)
      (reg : DataFrameRegistry.t) (acc : list string) :
  (∀ n, n ∈ acc → DataFrameRegistry.registered reg n) →
  loads_well reg (load_sheets xls names reg acc) ∧
  ∀ out, (load_sheets xls names reg acc).2 = Ok out →
         length out = length acc + length names.
Proof.
  revert reg acc. induction names as [|s names IH]; intros reg acc Hacc; simpl.
  - split; [split; [|split]; simpl; [done..|]|].
    + intros ns H n Hn. injection H as <-. by apply registered_get, Hacc.
    + intros out H. injection H as <-. lia.
  - destruct (do sh <- worksheet xls s; read_table sh) as [[df hr]|e].
    + destruct (IH (DataFrameRegistry.register reg (table_name xls s) df
                      (Some [("file_path", MStr (path xls));
                             ("sheet", MStr s); ("header_rows", MRows hr)]))
                   (acc ++ [table_name xls s]))
        as ((Hkeep & Hwf & Hret) & Hlen).
      { intros n [Hn| ->%list_elem_of_singleton]%elem_of_app;
          apply registered_register; [right; by apply Hacc|by left]. }
      split; [split; [|split]|].
      * intros n Hn. apply Hkeep, registered_register. by right.
      * intros Hw. by apply Hwf, RegistryFacts.wf_register.
      * done.
      * intros out Hout. rewrite (Hlen out Hout), length_app. simpl. lia.
    + split; [apply loads_well_raise|done].
Qed.

Lemma load_excel_well
        (reg : DataFrameRegistry.t) (xls : ExcelFile) (sheet : option string) :
  loads_well reg (load_excel reg xls sheet) ∧
  ∀ names, (load_excel reg xls sheet).2 = Ok names →
           length names = match sheet with
                          | Some _ => 1
                          | None => length (sheet_names xls)
                          end.
Proof.
  unfold load_excel.
  destruct (load_sheets_well xls
              (match sheet with Some s => [s] | None => sheet_names xls end)
              reg []) as [Hwell Hlen].
  { by intros n ?%elem_of_nil. }
  split; [done|]. intros names Hn. rewrite (Hlen names Hn).
  by destruct sheet.
Qed.

(** X14: [load_excel] never removes a name from the registry and keeps its
    names pairwise distinct, also when it raises part of the way; when it
    returns, it returns one name per worksheet asked for, and [get] succeeds
    on each of them. *)
Theorem load_excel_names_can_be_fetched
        (reg : DataFrameRegistry.t) (xls : ExcelFile) (sheet : option string) :
  loads_well reg (load_excel reg xls sheet) ∧
  ∀ names, (load_excel reg xls sheet).2 = Ok names →
           length names = match sheet with
                          | Some _ => 1
                          | None => length (sheet_names xls)
                          end.
Proof. intros. by eapply load_excel_well. Qed.

Lemma load_excel_at_well (reg : DataFrameRegistry.t) (f : File) :
  loads_well reg (load_excel_at reg f).
Proof.
  unfold load_excel_at. destruct (excel_file f); [|apply loads_well_raise].
  apply load_excel_well.
Qed.

Lemma load_csv_well (reg : DataFrameRegistry.t) (f : File) :
  loads_well reg (load_csv reg f).
Proof.
  unfold load_csv. destruct (read_csv f); [|apply loads_well_raise].
  apply loads_well_register.
Qed.

Lemma load_file_well (reg : DataFrameRegistry.t) (f : File) :
  loads_well reg (load_file reg f).
Proof.
  unfold load_file. repeat case_bool_decide;
    auto using load_excel_at_well, load_csv_well, loads_well_raise.
Qed.

(** X15: [load_folder], with or without a pattern, never removes a name from
    the registry and keeps its names pairwise distinct, also when a file
    makes it raise; when it returns, [get] succeeds on every name it
    returns. *)
Theorem load_folder_names_can_be_fetched
        (reg : DataFrameRegistry.t) (glob : string → list File)
        (pattern : option string) :
  loads_well reg (load_folder reg glob pattern).
Proof.
  assert (loads_well reg
            match load_each load_excel_at (glob "*.xlsx") reg [] with
            | (registry, Raise e) => (registry, Raise e)
            | (registry, Ok names) =>
                load_each load_csv (glob "*.csv") registry names
            end) as Hdefault.
  { pose proof (load_each_well load_excel_at (glob "*.xlsx") reg []
                  load_excel_at_well) as Hx.
    destruct (load_each load_excel_at (glob "*.xlsx") reg [])
      as [reg1 [names|e]].
    - destruct Hx as (Hk & Hw & Hr); [by intros n ?%elem_of_nil|].
      simpl in *.
      destruct (load_each_well load_csv (glob "*.csv") reg1 names
                  load_csv_well) as (Hk' & Hw' & Hr').
      { intros n Hn. by apply registered_get, (Hr names). }
      split; [|split]; auto.
    - apply Hx. by intros n ?%elem_of_nil. }
  unfold load_folder. destruct pattern as [p|]; [|done].
  case_bool_decide; [|done].
  apply load_each_well; [apply load_file_well|]. by intros n ?%elem_of_nil.
Qed.

(** ** Files a folder load stops at *)

Lemma load_each_app (load : DataFrameRegistry.t → File → Loaded)
      (pre post : list File) (reg : DataFrameRegistry.t) (names : list string) :
  load_each load (pre ++ post) reg names =
  match load_each load pre reg names with
  | (reg', Ok names') => load_each load post reg' names'
  | (reg', Raise e) => (reg', Raise e)
  end.
Proof.
  revert reg names. induction pre as [|f pre IH]; intros reg names; [done|].
  simpl. destruct (load reg f) as [reg1 [loaded|e]]; [apply IH|done].
Qed.

(** X16: with a pattern, [load_folder] stops at the first matched file whose
    extension, lowercased, is neither [.xlsx] nor [.csv]: it raises
    [ValueError], the tables of the files before it stay registered, and
    the files after it are not loaded. *)
Theorem load_folder_stops_at_unsupported_file
        (reg reg1 : DataFrameRegistry.t) (glob : string → list File)
        (p : string) (pre post : list File) (f : File) (names : list string) :
  p ≠ "" →
  glob p = pre ++ f :: post →
  load_each load_file pre reg [] = (reg1, Ok names) →
  Py.lower (file_suffix f) ≠ ".xlsx" →
  Py.lower (file_suffix f) ≠ ".csv" →
  load_folder reg glob (Some p) = (reg1, Raise ValueError).
Proof.
  intros Hp Hglob Hpre Hx Hc. unfold load_folder.
  rewrite bool_decide_eq_true_2 by done.
  rewrite Hglob, load_each_app, Hpre. simpl. unfold load_file.
  by rewrite !bool_decide_eq_false_2.
Qed.

(** X17: after [load_csv] on a file that [read_csv] can read, the table is
    registered under the file stem, trimmed and lowercased; [get] returns
    the frame that was read with its column names normalised and its rows
    untouched, [get_metadata] returns the file path alone, and every other
    table reads as before. *)
Theorem load_csv_then_get
        (reg : DataFrameRegistry.t) (f : File) (df : DataFrame) :
  read_csv f = Ok df →
  let name := Py.lower (Py.strip (file_stem f)) in
  let reg' := (load_csv reg f).1 in
  (load_csv reg f).2 = Ok [name] ∧
  DataFrameRegistry.get reg' name =
    Ok {| columns := normalize_names (columns df); rows := rows df |} ∧
  DataFrameRegistry.get_metadata reg' name =
    Ok [("file_path", MStr (file_path f))] ∧
  ∀ other, other ≠ name →
           DataFrameRegistry.get reg' other = DataFrameRegistry.get reg other.
Proof.
  intros Hread name reg'. unfold reg', load_csv. rewrite Hread. simpl.
  destruct (get_after_register reg name (_normalize_column_names df)
              (Some [("file_path", MStr (file_path f))]))
    as (Hget & Hmd & Hother).
  split; [done|]. split; [done|]. split; [done|].
  intros other Hne. by apply Hother.
Qed.

(** ** Which worksheet a table name ends up holding *)

Lemma get_register_ne (reg : DataFrameRegistry.t) (name other : string)
      (df : DataFrame) (md : option Metadata) :
  other ≠ name →
  DataFrameRegistry.get (DataFrameRegistry.register reg name df md) other =
    DataFrameRegistry.get reg other ∧
  DataFrameRegistry.get_metadata
    (DataFrameRegistry.register reg name df md) other =
    DataFrameRegistry.get_metadata reg other.
Proof.
  intros Hne.
  destruct (get_after_register reg name df md) as (_ & _ & H). by apply H.
Qed.

Lemma load_sheets_other_names (xls : ExcelFile) (names : list string)
      (reg : DataFrameRegistry.t) (acc : list string) (n : string) :
  (∀ s, s ∈ names → table_name xls s ≠ n) →
  DataFrameRegistry.get (load_sheets xls names reg acc).1 n =
    DataFrameRegistry.get reg n ∧
  DataFrameRegistry.get_metadata (load_sheets xls names reg acc).1 n =
    DataFrameRegistry.get_metadata reg n.
Proof.
  revert reg acc. induction names as [|s names IH]; intros reg acc Hn;
    simpl; [done|].
  destruct (do sh <- worksheet xls s; read_table sh) as [[df hr]|e]; [|done].
  destruct (IH (DataFrameRegistry.register reg (table_name xls s) df
                  (Some [("file_path", MStr (path xls));
                         ("sheet", MStr s); ("header_rows", MRows hr)]))
               (acc ++ [table_name xls s])) as [Hg Hm].
  { intros s' Hs'. apply Hn. by right. }
  rewrite Hg, Hm. apply get_register_ne.
  intros Heq. apply (Hn s); [left|done].
Qed.

(** X18: when [load_excel] returns, a worksheet whose table name no later
    worksheet of the run shares can be fetched under that name: [get] gives
    the table read from it and [get_metadata] the file path, the sheet name
    and the header rows used. A later worksheet with the same table name
    replaces it. *)
Theorem load_excel_last_sheet_wins
        (reg reg' : DataFrameRegistry.t) (xls : ExcelFile)
        (pre post : list string) (s : string) (sh : sheet)
        (out : list string) :
  load_sheets xls (pre ++ s :: post) reg [] = (reg', Ok out) →
  worksheet xls s = Ok sh →
  (∀ s', s' ∈ post → table_name xls s' ≠ table_name xls s) →
  ∃ df header_rows,
    read_table sh = Ok (df, header_rows) ∧
    DataFrameRegistry.get reg' (table_name xls s) = Ok df ∧
    DataFrameRegistry.get_metadata reg' (table_name xls s) =
      Ok (sheet_metadata xls s header_rows).
Proof.
  intros Hload Hws Hpost. rewrite load_sheets_app in Hload.
  destruct (load_sheets xls pre reg []) as [reg1 [acc1|e]]; [|done].
  simpl in Hload. rewrite Hws in Hload. simpl in Hload.
  destruct (read_table sh) as [[df hr]|e]; [|done].
  exists df, hr. split; [done|].
  set (reg2 := DataFrameRegistry.register reg1 (table_name xls s) df _) in Hload.
  destruct (load_sheets_other_names xls post reg2 (acc1 ++ [table_name xls s])
              (table_name xls s) Hpost) as [Hg Hm].
  rewrite Hload in Hg, Hm. simpl in Hg, Hm. rewrite Hg, Hm.
  destruct (get_after_register reg1 (table_name xls s) df
              (Some (sheet_metadata xls s hr))) as (Hget & Hmd & _).
  split; [exact Hget|exact Hmd].
Qed.

(** ** Exporting *)

Lemma export_each_all_registered (reg : DataFrameRegistry.t)
      (tables : list string) (fs : Written) :
  (∀ t, t ∈ tables → DataFrameRegistry.registered reg t) →
  ∃ files, export_each reg tables fs = (fs ++ files, Ok tt) ∧
           exported reg tables files.
Proof.
  revert fs. induction tables as [|t tables IH]; intros fs Hall; simpl.
  - exists []. rewrite app_nil_r. split; [done|constructor].
  - assert (is_ok (DataFrameRegistry.get reg t) = true) as Hok
      by (apply registered_get, Hall; left).
    destruct (DataFrameRegistry.get reg t) as [df|] eqn:Hget; [|done].
    destruct (IH (fs ++ [(t +:+ ".csv", df)])) as (files & -> & Hex).
    { intros t' Ht'. apply Hall. by right. }
    exists ((t +:+ ".csv", df) :: files). rewrite <- app_assoc.
    split; [done|]. by constructor.
Qed.

Lemma export_each_app (reg : DataFrameRegistry.t) (pre post : list string)
      (fs : Written) :
  export_each reg (pre ++ post) fs =
  match export_each reg pre fs with
  | (fs', Ok _) => export_each reg post fs'
  | (fs', Raise e) => (fs', Raise e)
  end.
Proof.
  revert fs. induction pre as [|t pre IH]; intros fs; [done|].
  simpl. destruct (DataFrameRegistry.get reg t); [apply IH|done].
Qed.

Lemma export_all_registered
        (reg : DataFrameRegistry.t) (tables : list string) (fs : Written) :
  (∀ t, t ∈ tables → DataFrameRegistry.registered reg t) →
  ∃ files, export_to_csv reg (Some tables) fs = (fs ++ files, Ok tt) ∧
           exported reg tables files.
Proof. intros Hall. by apply export_each_all_registered. Qed.

(** X19: given a list of tables that are all registered, [export_to_csv]
    writes one file per listed table, in the order of the list, named after
    the table with [.csv] appended and holding the frame [get] returns for
    it; files written earlier are kept. *)
Theorem export_writes_each_listed_table
        (reg : DataFrameRegistry.t) (tables : list string) (fs : Written) :
  (∀ t, t ∈ tables → DataFrameRegistry.registered reg t) →
  ∃ files, export_to_csv reg (Some tables) fs = (fs ++ files, Ok tt) ∧
           exported reg tables files.
Proof. intros. by eapply export_all_registered. Qed.

(** X20: when a listed table is not registered, [export_to_csv] raises
    [KeyError] at the first such name: the files of the tables listed before
    it have been written, no file is written for it or for the tables after
    it. *)
Theorem export_stops_at_missing_table
        (reg : DataFrameRegistry.t) (pre post : list string) (t : string)
        (fs : Written) :
  (∀ t', t' ∈ pre → DataFrameRegistry.registered reg t') →
  ¬ DataFrameRegistry.registered reg t →
  ∃ files, export_to_csv reg (Some (pre ++ t :: post)) fs
             = (fs ++ files, Raise KeyError) ∧
           exported reg pre files.
Proof.
  intros Hpre Ht. simpl. rewrite export_each_app.
  destruct (export_each_all_registered reg pre fs Hpre) as (files & -> & Hex).
  exists files. split; [|done]. simpl.
  unfold DataFrameRegistry.get. by rewrite dict_get_missing.
Qed.

(** X21: exporting the names [load_excel] has just returned, from the
    registry it has filled, never raises: one file is written per loaded
    worksheet. *)
Theorem export_after_load_excel
        (reg reg' : DataFrameRegistry.t) (xls : ExcelFile)
        (sheet : option string) (names : list string) (fs : Written) :
  load_excel reg xls sheet = (reg', Ok names) →
  ∃ files, export_to_csv reg' (Some names) fs = (fs ++ files, Ok tt) ∧
           exported reg' names files ∧
           length files = match sheet with
                          | Some _ => 1
                          | None => length (sheet_names xls)
                          end.
Proof.
  intros Hload.
  destruct (load_excel_well reg xls sheet)
    as [(_ & _ & Hret) Hlen].
  rewrite Hload in Hret, Hlen. simpl in Hret, Hlen.
  destruct (export_all_registered reg' names fs)
    as (files & Hexp & Hex).
  { intros t Ht. by apply registered_get, (Hret names). }
  exists files. split; [done|]. split; [done|].
  rewrite <- (Hlen names eq_refl). symmetry. by eapply Forall2_length.
Qed.

(** ** Every table a workbook load leaves in the registry *)

Lemma read_table_clean (sh : sheet) (df : DataFrame) (header_rows : list nat) :
  read_table sh = Ok (df, header_rows) → clean df.
Proof.
  intros Hrt. destruct (read_table_no_empty _ _ _ Hrt) as [Hrect Hne].
  split; [done|]. split; [done|]. by eapply read_table_names.
Qed.

Lemma all_tables_register (P : DataFrame → Prop) (reg : DataFrameRegistry.t)
      (name : string) (df : DataFrame) (md : option Metadata) :
  all_tables P reg → P df →
  all_tables P (DataFrameRegistry.register reg name df md).
Proof.
  intros Hall Hdf other df' Hget.
  destruct (decide (other = name)) as [->|Hne].
  - destruct (get_after_register reg name df md) as (Hg & _).
    rewrite Hg in Hget. by injection Hget as <-.
  - destruct (get_register_ne reg name other df md Hne) as [Hg _].
    rewrite Hg in Hget. by eapply Hall.
Qed.

Lemma load_sheets_all_clean (xls : ExcelFile) (names : list string)
      (reg : DataFrameRegistry.t) (acc : list string) :
  all_tables clean reg → all_tables clean (load_sheets xls names reg acc).1.
Proof.
  revert reg acc. induction names as [|s names IH]; intros reg acc Hall;
    simpl; [done|].
  destruct (worksheet xls s) as [sh|]; simpl; [|done].
  destruct (read_table sh) as [[df hr]|] eqn:Hrt; [|done].
  apply IH, all_tables_register; [done|]. by eapply read_table_clean.
Qed.

(** X22: if every table of the registry has one cell per column name in
    every row, no all-missing row or column and no empty column name, the
    same holds after [load_excel], whether it returns or raises; so for
    every table of such a registry [get_columns] returns as many names as
    each of its rows has cells. *)
Theorem load_excel_keeps_tables_clean
        (reg : DataFrameRegistry.t) (xls : ExcelFile) (sheet : option string) :
  all_tables clean reg →
  let reg' := (load_excel reg xls sheet).1 in
  all_tables clean reg' ∧
  ∀ name cols df,
    get_columns reg' name = Ok cols →
    DataFrameRegistry.get reg' name = Ok df →
    cols = columns df ∧
    Forall (λ r, length r = length cols) (rows df) ∧
    (∀ c, c ∈ cols → c ≠ "").
Proof.
  intros Hall reg'.
  assert (all_tables clean reg') as Hclean
    by (apply load_sheets_all_clean, Hall).
  split; [done|]. intros name cols df Hcols Hget.
  unfold get_columns in Hcols. rewrite Hget in Hcols. simpl in Hcols.
  injection Hcols as <-.
  destruct (Hclean name df Hget) as (Hrect & _ & Hne). done.
Qed.

(** ** Cleaning a clean frame *)

Lemma list_filter_all {A} (p : A → bool) (l : list A) :
  Forall (λ x, p x = true) l → List.filter p l = l.
Proof.
  induction 1 as [|x l Hx _ IH]; [done|]. simpl. by rewrite Hx, IH.
Qed.

Lemma project_all {A} (d : A) (l : list A) :
  (λ j, nth j l d) <$> seq 0 (length l) = l.
Proof.
  apply list_eq. intros i. rewrite list_lookup_fmap.
  destruct (decide (i < length l)) as [Hi|Hi].
  - rewrite lookup_seq_lt by done. simpl.
    destruct (lookup_lt_is_Some_2 l i Hi) as [x Hx].
    by rewrite Hx, (nth_lookup_Some _ _ d _ Hx).
  - rewrite lookup_seq_ge, lookup_ge_None_2 by lia. done.
Qed.

Lemma cleaned_rectangular (df : DataFrame) :
  rectangular (dropna_cols (dropna_rows df)).
Proof.
  unfold rectangular. simpl. apply Forall_fmap, Forall_forall.
  intros r _. simpl. by rewrite !length_fmap.
Qed.

Lemma dropna_identity (df : DataFrame) :
  rectangular df → no_empty_row_or_column df →
  dropna_cols (dropna_rows df) = df.
Proof.
  intros Hrect [Hrows Hcols].
  assert (kept_columns df = seq 0 (length (columns df))) as Hkept.
  { unfold kept_columns, range. rewrite Nat.sub_0_r.
    apply list_filter_all, Forall_forall. intros j Hj.
    apply elem_of_seq in Hj. apply Hcols. lia. }
  pose proof (kept_columns_dropna_rows df) as Hk.
  unfold dropna_cols, dropna_rows in *. cbn [columns rows] in *.
  rewrite Hk, Hkept, project_all, (list_filter_all _ _ Hrows).
  destruct df as [cs rs]. simpl in *. f_equal.
  rewrite <- (list_fmap_id rs) at 2. apply list_fmap_ext.
  intros i r Hr. simpl.
  unfold rectangular in Hrect. rewrite Forall_forall in Hrect.
  simpl in Hrect.
  rewrite <- (Hrect r) by (by eapply list_elem_of_lookup_2).
  apply project_all.
Qed.

(** X23: on a frame in which every row has one cell per column name,
    cleaning (dropping the all-missing rows, then the all-missing columns)
    twice gives what cleaning once gives, and a frame that has no
    all-missing row or column is left exactly as it is. *)
Theorem cleaning_is_idempotent (df : DataFrame) :
  rectangular df →
  let cleaned := dropna_cols (dropna_rows df) in
  dropna_cols (dropna_rows cleaned) = cleaned ∧
  (no_empty_row_or_column df → cleaned = df).
Proof.
  intros Hrect cleaned. split.
  - apply dropna_identity; [apply cleaned_rectangular|].
    by apply cleaned_no_empty.
  - by apply dropna_identity.
Qed.

(** ** When assigning the column names fails *)

Lemma max_width_le (rows rows' : list row) :
  (∀ r, r ∈ rows → r ≠ [] → r ∈ rows') → max_width rows ≤ max_width rows'.
Proof.
  induction rows as [|r rows IH]; intros Hsub; simpl; [lia|].
  apply Nat.max_lub.
  - destruct r as [|v r]; [simpl; lia|].
    apply max_width_ge, Hsub; [left|done].
  - apply IH. intros r' Hr'. apply Hsub. by right.
Qed.

Lemma max_width_padded (rows : list row) :
  max_width (pad (max_width rows) <$> rows) = max_width rows.
Proof.
  destruct rows as [|r0 rows]; [done|].
  apply max_width_const; [done|].
  intros r (r' & -> & Hr')%list_elem_of_fmap. rewrite length_pad.
  pose proof (max_width_ge _ _ Hr'). lia.
Qed.

Lemma elem_of_drop_end {A} (p : A → bool) (l : list A) (x : A) :
  x ∈ l → p x = false → x ∈ drop_end p l.
Proof.
  intros Hx Hp. destruct (drop_end_spec p l) as (post & E & Hpost & _).
  rewrite E in Hx. apply elem_of_app in Hx as [|Hx]; [done|].
  rewrite Forall_forall in Hpost. apply Hpost in Hx. congruence.
Qed.

Lemma drop_end_subseteq {A} (p : A → bool) (l : list A) (x : A) :
  x ∈ drop_end p l → x ∈ l.
Proof.
  intros Hx. destruct (drop_end_spec p l) as (post & E & _).
  rewrite E. apply elem_of_app. by left.
Qed.

(** The window is never wider than the frame of all rows. *)
Lemma window_width_le (sh : sheet) (n : nat) :
  max_width (get_sheet_data sh (Some n)) ≤ max_width (get_sheet_data sh None).
Proof.
  unfold get_sheet_data. rewrite !max_width_padded.
  apply max_width_le. intros r Hr Hne.
  apply elem_of_drop_end; [|by destruct r].
  apply drop_end_subseteq, list_elem_of_fmap in Hr as (r0 & -> & Hr0).
  apply list_elem_of_fmap. exists r0. split; [done|].
  by eapply subseteq_take.
Qed.

(** X24: once the header block of a worksheet has been found, reading the
    worksheet raises [ValueError] in exactly two cases: no row is left
    below the header block (and the window has a column), or the rows the
    reader returns for the whole worksheet are wider than those it returns
    for the window. *)
Theorem read_table_value_error_iff
        (sh : sheet) (header_rows : list nat) (hdf : list row) :
  header_found sh header_rows hdf →
  (read_table sh = Raise ValueError ↔
   (length (get_sheet_data sh None) ≤ list_max header_rows + 1 ∧
    0 < ncols (parse_peek 20 sh))
   ∨ (list_max header_rows + 1 < length (get_sheet_data sh None) ∧
      ncols (parse_peek 20 sh) < max_width (get_sheet_data sh None))).
Proof.
  intros [Hb Hh]. unfold read_table. rewrite Hb. simpl. rewrite Hh. simpl.
  unfold set_columns. rewrite length_new_columns, ncols_parse_skip.
  pose proof (window_width_le sh 21) as Hle.
  change (ncols (parse_peek 20 sh))
    with (max_width (get_sheet_data sh (Some 21))).
  set (w := max_width (get_sheet_data sh (Some 21))) in *.
  case_decide as Hlen;
    destruct (Nat.eqb_spec w 0) as [H0|H0];
    destruct (Nat.eqb_spec w (max_width (get_sheet_data sh None)))
      as [Hw|Hw];
    simpl; split; try done; try lia; intros _; lia.
Qed.

(** ** The listing only grows at its end *)

Lemma list_register (reg : DataFrameRegistry.t) (name : string)
      (df : DataFrame) (md : option Metadata) :
  list_dataframes reg
    `prefix_of` list_dataframes (DataFrameRegistry.register reg name df md) ∧
  ∀ n, n ∈ list_dataframes (DataFrameRegistry.register reg name df md) →
       n ∈ list_dataframes reg ∨ n = name.
Proof.
  unfold list_dataframes.
  destruct (register_in_place reg name df df md md) as [-> _].
  case_decide.
  - split; [done|auto].
  - split; [by apply prefix_app_r|].
    intros n [Hn| ->%list_elem_of_singleton]%elem_of_app; auto.
Qed.

Lemma grows_raise (reg : DataFrameRegistry.t) (names : list string) (e : exn) :
  grows reg names (reg, Raise e).
Proof. split; simpl; done. Qed.

Lemma grows_step (reg reg1 : DataFrameRegistry.t) (names loaded : list string)
      (out : Loaded) :
  list_dataframes reg `prefix_of` list_dataframes reg1 →
  (∀ n, n ∈ list_dataframes reg1 → n ∈ list_dataframes reg ∨ n ∈ loaded) →
  grows reg1 (names ++ loaded) out →
  grows reg names out.
Proof.
  intros Hpre Hnew [Hpre' Hres]. split; [by etrans|].
  intros res Hout. destruct (Hres res Hout) as [Hacc Hin].
  split; [by eapply prefix_app_l|].
  intros n Hn. destruct (Hin n Hn) as [Hn1|]; [|by right].
  destruct (Hnew n Hn1) as [|Hl]; [by left|right].
  eapply elem_of_prefix; [|exact Hacc]. apply elem_of_app. by right.
Qed.

Lemma grows_each (load : DataFrameRegistry.t → File → Loaded)
      (files : list File) (reg : DataFrameRegistry.t) (names : list string) :
  (∀ r f, grows r [] (load r f)) →
  grows reg names (load_each load files reg names).
Proof.
  intros Hload. revert reg names.
  induction files as [|f files IH]; intros reg names; simpl.
  - split; [done|]. intros res H. injection H as <-. split; [done|auto].
  - destruct (Hload reg f) as [Hpre Hnew].
    destruct (load reg f) as [reg1 [loaded|e]]; simpl in *;
      [|by split].
    apply (grows_step reg reg1 names loaded); [done| |apply IH].
    intros n Hn. by apply (Hnew loaded).
Qed.

Lemma grows_sheets (xls : ExcelFile) (sheets : list string)
      (reg : DataFrameRegistry.t) (names : list string) :
  grows reg names (load_sheets xls sheets reg names).
Proof.
  revert reg names. induction sheets as [|s sheets IH]; intros reg names;
    simpl.
  - split; [done|]. intros res H. injection H as <-. split; [done|auto].
  - destruct (do sh <- worksheet xls s; read_table sh) as [[df hr]|e];
      [|apply grows_raise].
    destruct (list_register reg (table_name xls s) df
                (Some [("file_path", MStr (path xls));
                       ("sheet", MStr s); ("header_rows", MRows hr)]))
      as [Hpre Hnew].
    eapply (grows_step reg _ names [table_name xls s]);
      [exact Hpre| |apply IH].
    intros n Hn. destruct (Hnew n Hn) as [?| ->]; [by left|right; left].
Qed.

Lemma grows_load_file (reg : DataFrameRegistry.t) (f : File) :
  grows reg [] (load_excel_at reg f) ∧ grows reg [] (load_csv reg f) ∧
  grows reg [] (load_file reg f).
Proof.
  assert (grows reg [] (load_excel_at reg f)) as Hx.
  { unfold load_excel_at. destruct (excel_file f); [|apply grows_raise].
    apply grows_sheets. }
  assert (grows reg [] (load_csv reg f)) as Hc.
  { unfold load_csv. destruct (read_csv f) as [df|]; [|apply grows_raise].
    destruct (list_register reg (Py.lower (Py.strip (file_stem f)))
                (_normalize_column_names df)
                (Some [("file_path", MStr (file_path f))])) as [Hpre Hnew].
    split; [done|]. simpl. intros res H. injection H as <-.
    split; [apply prefix_nil|].
    intros n Hn. destruct (Hnew n Hn) as [?| ->]; [by left|right; left]. }
  split; [done|]. split; [done|].
  unfold load_file. repeat case_bool_decide; auto using grows_raise.
Qed.

(** X25: [load_excel] and [load_folder] only add to the end of the registry
    listing: the names [list_dataframes] gave before the call are, in the
    same order, the first names it gives after it, whether the call returns
    or raises; and when it returns, every name listed is one listed before
    or one of the names returned. *)
Theorem loaders_only_append_to_listing
        (reg : DataFrameRegistry.t) (xls : ExcelFile) (sheet : option string)
        (glob : string → list File) (pattern : option string) :
  grows reg [] (load_excel reg xls sheet) ∧
  grows reg [] (load_folder reg glob pattern).
Proof.
  split; [apply grows_sheets|].
  assert (grows reg []
            match load_each load_excel_at (glob "*.xlsx") reg [] with
            | (registry, Raise e) => (registry, Raise e)
            | (registry, Ok names) =>
                load_each load_csv (glob "*.csv") registry names
            end) as Hdefault.
  { pose proof (grows_each load_excel_at (glob "*.xlsx") reg []
                  (λ r f, proj1 (grows_load_file r f))) as [Hpre Hres].
    destruct (load_each load_excel_at (glob "*.xlsx") reg [])
      as [reg1 [names|e]]; [|by split].
    simpl in *. destruct (Hres names eq_refl) as [_ Hin].
    apply (grows_step reg reg1 [] names); [done|done|].
    apply grows_each. intros r f. apply grows_load_file. }
  unfold load_folder. destruct pattern as [p|]; [|done].
  case_bool_decide; [|done].
  apply grows_each. intros r f. apply grows_load_file.
Qed.

End Properties.

(** * Worked examples

    The sample worksheets, frames and files, evaluated. Their texts keep to
    Basic Latin and Latin-1, so the tables of [sample_unicode] decide
    nothing. *)

#[local] Existing Instance sample_unicode.

(** ** Header location *)

(** C1, as stated, fails: row 1 is the first row matching an anchor, row 0
    is dense without matching one, and the loop stops at row 0. *)
Lemma anchor_priority_fails :
  has_anchor anchors [Text "ensaio 2021"; Text "fazenda"] = false ∧
  has_anchor anchors [Text "Parcela"; Text "Bloco"] = true ∧
  locate anchors (parse_peek 20 dense_title_sheet) = 0 ∧
  ¬ anchor_has_priority anchors 20 dense_title_sheet.
Proof.
  split; [reflexivity|]. split; [reflexivity|]. split; [reflexivity|].
  intros H.
  specialize (H 1 [Text "Parcela"; Text "Bloco"] eq_refl eq_refl).
  assert (locate anchors (parse_peek 20 dense_title_sheet) = 0) as E
    by reflexivity.
  rewrite E in H. enough (0 = 1) by lia. apply H.
  intros j r' Hj Hr'. assert (j = 0) as -> by lia.
  injection Hr' as <-. reflexivity.
Qed.

(** The anchor is matched whatever its case: [NÓ] in row 1 is the anchor
    [nó], and the note above it fills one column of four. *)
Lemma locate_first_anchor_or_dense_witness :
  locate anchors (parse_peek 20 accent_anchor_sheet) = 1.
Proof.
  apply (locate_first_anchor_or_dense anchors _ 1
           [Text "NÓ"; Text "-"; Text "-"; Text "Folhas"]).
  - reflexivity.
  - reflexivity.
  - intros j r' Hj Hr'. assert (j = 0) as -> by lia.
    injection Hr' as <-. split; reflexivity.
Defined.

(** ** Extent of the header block *)

(** The header of [late_header_sheet] is found at row 18; rows 19 and 20
    both pass the sub-header test, and row 20 lies outside the window of 20
    rows: the block is [18; 19]. On [plain_sheet] the row below the header
    fails the test and the block is the header row alone. *)
Lemma header_block_contiguous_witness :
  locate anchors (parse_peek 20 late_header_sheet) = 18 ∧
  header_block 20 (parse_peek 20 late_header_sheet) 18 = Ok [18; 19] ∧
  header_block 20 (parse_peek 20 plain_sheet) 0 = Ok [0] ∧
  ∀ i, i ∈ [18; 19] ↔
       i = 18 ∨
       (18 < i < Nat.min (18 + 3) 20 ∧
        all_header_like (parse_peek 20 late_header_sheet) (18 + 1) (i + 1)).
Proof.
  split; [reflexivity|]. split; [reflexivity|]. split; [reflexivity|].
  pose proof (header_block_contiguous 20 (parse_peek 20 late_header_sheet) 18)
    as H.
  assert (header_block 20 (parse_peek 20 late_header_sheet) 18 = Ok [18; 19])
    as E by reflexivity.
  rewrite E in H. exact (proj2 (proj2 H)).
Defined.

(** ** Width of the frame below the header *)

(** C4, as stated, fails: in the second worksheet no row is left below the
    header block, assigning the column names raises, and [load_excel] ends
    there with the first worksheet registered; the third worksheet, which
    loads when asked for alone, is not registered. *)
Lemma failure_aborts_workbook :
  read_table text_only_sheet = Raise ValueError ∧
  (load_excel DataFrameRegistry.init sample_workbook None).2
    = Raise ValueError ∧
  DataFrameRegistry.list
    (load_excel DataFrameRegistry.init sample_workbook None).1
    = ["ensaio__resumo"] ∧
  (load_excel DataFrameRegistry.init sample_workbook (Some "Notas")).2
    = Ok ["ensaio__notas"] ∧
  ¬ failure_is_local sample_workbook.
Proof.
  split; [reflexivity|]. split; [reflexivity|]. split; [reflexivity|].
  split; [reflexivity|].
  intros H. specialize (H "Notas" plain_sheet eq_refl eq_refl).
  unfold DataFrameRegistry.registered in H.
  change (table_name sample_workbook "Notas" ∈ ["ensaio__resumo"]) in H.
  apply list_elem_of_singleton in H. vm_compute in H. discriminate H.
Qed.

Lemma width_mismatch_aborts_load_witness :
  read_table text_only_sheet = Raise ValueError ∧
  load_sheets sample_workbook (["Resumo"] ++ "Campo" :: ["Notas"])
              DataFrameRegistry.init []
    = ((load_sheets sample_workbook ["Resumo"] DataFrameRegistry.init []).1,
       Raise ValueError).
Proof.
  apply (width_mismatch_aborts_load sample_workbook ["Resumo"] ["Notas"]
           "Campo" text_only_sheet [0; 1; 2]
           [[Text "Parcela"; Text "Bloco"]; [Text "id"; Text "nome"];
            [Text "a"; Text "b"]]
           DataFrameRegistry.init _ [] ["ensaio__resumo"]).
  - reflexivity.
  - reflexivity.
  - split; reflexivity.
  - vm_compute. lia.
Defined.

(** ** Collision suffixes *)

Lemma collision_suffix_order_stable_witness :
  normalize_names ["Nó"; "Yield"; " NÓ"] !! 2 = Some "nó_1".
Proof.
  destruct (collision_suffix_order_stable ["Nó"; "Yield"; " NÓ"] 2 " NÓ")
    as [H _]; [reflexivity|].
  exact H.
Defined.

(** ** Cleaning comes before normalisation *)

(** The empty first column of [empty_column_sheet] is labelled [Plot] like
    the second: it is dropped with the empty row, and the second column is
    named [plot], not [plot_1]. *)
Lemma suffixes_count_surviving_columns_witness :
  ∃ df, read_table empty_column_sheet = Ok (df, [0]) ∧
        columns df = ["plot"; "yield"] ∧
        rows df = [[Number "1"; Number "20.5"]; [Number "2"; Number "18"]] ∧
        columns df !! 0 = Some (suffixed "plot" 0).
Proof.
  eexists. split; [reflexivity|]. split; [reflexivity|].
  split; [reflexivity|].
  destruct (suffixes_count_surviving_columns empty_column_sheet _ [0] eq_refl)
    as (hdf & [_ Hh] & _ & _ & _ & _ & H).
  injection Hh as <-. exact (H 0 1 eq_refl).
Defined.

(** ** The registry *)

Lemma registry_fails_exactly_when_absent_witness :
  (DataFrameRegistry.get sample_registry "c" = Raise KeyError
     ↔ ¬ DataFrameRegistry.registered sample_registry "c") ∧
  (DataFrameRegistry.unregister sample_registry "a" = Raise KeyError
     ↔ ¬ DataFrameRegistry.registered sample_registry "a").
Proof.
  split.
  - apply (registry_fails_exactly_when_absent sample_registry "c").
    apply RegistryFacts.wf_register, RegistryFacts.wf_register,
      RegistryFacts.wf_init.
  - apply (registry_fails_exactly_when_absent sample_registry "a").
    apply RegistryFacts.wf_register, RegistryFacts.wf_register,
      RegistryFacts.wf_init.
Defined.

Lemma register_unregister_roundtrip_witness :
  DataFrameRegistry.unregister
    (DataFrameRegistry.register sample_registry "c" sample_frame None) "c"
  = Ok sample_registry.
Proof.
  apply (register_unregister_roundtrip sample_registry "c" sample_frame None).
  intros H. change ("c" ∈ ["a"; "b"]) in H.
  rewrite !elem_of_cons, elem_of_nil in H.
  destruct H as [H|[H|H]]; [discriminate H|discriminate H|exact H].
Defined.

Lemma reachable_registry_names_unique_witness :
  NoDup (DataFrameRegistry.list sample_registry).
Proof.
  apply (reachable_registry_names_unique sample_registry).
  apply reach_register, reach_register, reach_init.
Defined.

(** ** The base name of a column *)


(** ** Composite column names *)


(** ** The two ways reading a worksheet fails *)

Lemma read_table_fails_two_ways_witness :
  (ValueError = IndexError ∧
   length (cells (parse_peek 20 text_only_sheet)) < 20 ∧
   header_block 20 (parse_peek 20 text_only_sheet)
                (locate anchors (parse_peek 20 text_only_sheet))
     = Raise IndexError)
  ∨ (ValueError = ValueError ∧
     ∃ header_rows hdf,
       header_found text_only_sheet header_rows hdf ∧
       ncols (parse_skip text_only_sheet (list_max header_rows + 1))
         ≠ ncols (parse_peek 20 text_only_sheet)).
Proof.
  exact (read_table_fails_two_ways text_only_sheet ValueError eq_refl).
Defined.

Lemma read_table_value_error_iff_witness :
  read_table text_only_sheet = Raise ValueError ↔
  (length (get_sheet_data text_only_sheet None) ≤ list_max [0; 1; 2] + 1 ∧
   0 < ncols (parse_peek 20 text_only_sheet))
  ∨ (list_max [0; 1; 2] + 1 < length (get_sheet_data text_only_sheet None) ∧
     ncols (parse_peek 20 text_only_sheet)
       < max_width (get_sheet_data text_only_sheet None)).
Proof.
  apply (read_table_value_error_iff text_only_sheet [0; 1; 2]
           [[Text "Parcela"; Text "Bloco"]; [Text "id"; Text "nome"];
            [Text "a"; Text "b"]]).
  split; reflexivity.
Defined.

(** ** What cleaning leaves *)

Lemma dropna_passes_commute_witness :
  dropna_cols (dropna_rows sample_frame) = dropna_rows (dropna_cols sample_frame).
Proof.
  apply (dropna_passes_commute sample_frame).
  repeat constructor.
Defined.

Lemma read_table_is_clean_witness :
  ∃ df, read_table empty_column_sheet = Ok (df, [0]) ∧
        rectangular df ∧ no_empty_row_or_column df.
Proof.
  eexists. split; [reflexivity|].
  apply (read_table_is_clean empty_column_sheet _ [0]). reflexivity.
Defined.

Lemma cleaning_is_idempotent_witness :
  dropna_cols (dropna_rows (dropna_cols (dropna_rows sample_frame)))
    = dropna_cols (dropna_rows sample_frame).
Proof.
  destruct (cleaning_is_idempotent sample_frame) as [H _]; [|exact H].
  repeat constructor.
Defined.

(** ** More on name normalisation *)

Lemma normalize_names_distinct_bases_witness :
  normalize_names ["Plot No"; " Yield"; "ÁREA"] = ["plot_no"; "yield"; "área"].
Proof.
  destruct (normalize_names_distinct_bases ["Plot No"; " Yield"; "ÁREA"])
    as [H _]; [|exact H].
  apply (bool_decide_unpack _). by vm_compute.
Defined.

Lemma same_base_names_never_collide_witness :
  normalize_names ["Nó"; "NÓ"; "nó_1"] !! 0
    ≠ normalize_names ["Nó"; "NÓ"; "nó_1"] !! 1.
Proof.
  apply (same_base_names_never_collide ["Nó"; "NÓ"; "nó_1"] 0 1
           "Nó" "NÓ"); [reflexivity|reflexivity|lia|reflexivity].
Defined.

Lemma read_table_names_nonempty_witness :
  ∃ df, read_table spanning_header_sheet = Ok (df, [0; 1]) ∧
        ∀ c, c ∈ columns df → c ≠ "".
Proof.
  eexists. split; [reflexivity|].
  apply (read_table_names_nonempty spanning_header_sheet _ [0; 1]).
  reflexivity.
Defined.

(** ** What the loaders do to the registry *)

Lemma load_folder_stops_at_unsupported_file_witness :
  load_folder DataFrameRegistry.init sample_glob (Some "*") =
  ((load_csv DataFrameRegistry.init csv_file).1, Raise ValueError).
Proof.
  apply (load_folder_stops_at_unsupported_file DataFrameRegistry.init _
           sample_glob "*" [csv_file] [xlsx_file] notes_file ["são carlos"]).
  - discriminate.
  - reflexivity.
  - reflexivity.
  - intros H. vm_compute in H. discriminate H.
  - intros H. vm_compute in H. discriminate H.
Defined.

(** The file [São Carlos .CSV] is registered as [são carlos], and of its
    columns [Nó] and [NÓ] the second is renamed. *)
Lemma load_csv_then_get_witness :
  DataFrameRegistry.get (load_csv DataFrameRegistry.init csv_file).1
    "são carlos" =
  Ok {| columns := ["nó"; "ph"; "nó_1"];
        rows := [[Number "1"; Number "5.5"; Missing]] |}.
Proof.
  destruct (load_csv_then_get DataFrameRegistry.init csv_file _ eq_refl)
    as (_ & H & _).
  exact H.
Defined.

Lemma load_excel_last_sheet_wins_witness :
  ∃ df header_rows,
    read_table plain_sheet = Ok (df, header_rows) ∧
    DataFrameRegistry.get
      (load_excel DataFrameRegistry.init sample_workbook (Some "Resumo")).1
      "ensaio__resumo" = Ok df ∧
    DataFrameRegistry.get_metadata
      (load_excel DataFrameRegistry.init sample_workbook (Some "Resumo")).1
      "ensaio__resumo" = Ok (sheet_metadata sample_workbook "Resumo" header_rows).
Proof.
  apply (load_excel_last_sheet_wins DataFrameRegistry.init _ sample_workbook
           [] [] "Resumo" plain_sheet ["ensaio__resumo"]).
  - reflexivity.
  - reflexivity.
  - intros s' Hs'. by apply elem_of_nil in Hs'.
Defined.

(** ** Exporting *)

Lemma export_writes_each_listed_table_witness :
  ∃ files, export_to_csv sample_registry (Some ["b"; "a"]) [] = ([] ++ files, Ok tt) ∧
           exported sample_registry ["b"; "a"] files.
Proof.
  apply (export_writes_each_listed_table sample_registry ["b"; "a"] []).
  intros t Ht. change (t ∈ ["a"; "b"]).
  rewrite !elem_of_cons in *. tauto.
Defined.

Lemma export_stops_at_missing_table_witness :
  ∃ files, export_to_csv sample_registry (Some (["a"] ++ "c" :: ["b"])) []
             = ([] ++ files, Raise KeyError) ∧
           exported sample_registry ["a"] files.
Proof.
  apply (export_stops_at_missing_table sample_registry ["a"] ["b"] "c" []).
  - intros t Ht. change (t ∈ ["a"; "b"]). rewrite !elem_of_cons in *. tauto.
  - intros H. change ("c" ∈ ["a"; "b"]) in H.
    rewrite !elem_of_cons, elem_of_nil in H.
    destruct H as [H|[H|H]]; [discriminate H|discriminate H|exact H].
Defined.

Lemma export_after_load_excel_witness :
  ∃ files,
    export_to_csv
      (load_excel DataFrameRegistry.init sample_workbook (Some "Resumo")).1
      (Some ["ensaio__resumo"]) [] = ([] ++ files, Ok tt) ∧
    exported
      (load_excel DataFrameRegistry.init sample_workbook (Some "Resumo")).1
      ["ensaio__resumo"] files ∧
    length files = 1.
Proof.
  apply (export_after_load_excel DataFrameRegistry.init _ sample_workbook
           (Some "Resumo") ["ensaio__resumo"] []).
  reflexivity.
Defined.

(** ** Every table a workbook load leaves in the registry *)

Lemma load_excel_keeps_tables_clean_witness :
  all_tables clean
    (load_excel DataFrameRegistry.init sample_workbook None).1.
Proof.
  apply (load_excel_keeps_tables_clean DataFrameRegistry.init sample_workbook
           None).
  intros name df Hget. discriminate Hget.
Defined.
